(** * GraphQL schema generators of ccdi-dcc-graphql: model and properties

    The repository holds three generators that turn a data-model description
    into GraphQL SDL text:

    - [data-model-schema-graphql.py]      (module [Plain]),
    - [data-model-schema-graphql-mdf.py]  (module [Mdf]),
    - [memgraph-schema-graphql.py]        (module [Memgraph]).

    Python [str] values are modelled as [string], the UTF-8 bytes of the
    text. On ASCII text the case mappings and the character class of the
    generators are computed; on other text they are those of the Python
    runtime, whose Unicode tables the model takes as the parameter
    [Unicode].
    Python dicts that are only read by key are [gmap]s, Python sets are
    [gset]s, and dicts that are iterated are association lists in insertion
    order. *)

From Stdlib Require Import Ascii String.
From stdpp Require Import gmap strings list sorting pretty.

(* set_solver clears hypotheses that are already gone *)
Set Warnings "-clear-no-such-hyp".

(** ** Python string primitives *)

(** The Unicode tables of the Python runtime, as far as the generators use
    them: [str.lower()] and [str.upper()] on a text that is not all ASCII,
    and [str.isalnum()] on a character that is not ASCII. *)
Class Unicode : Type := {
  unicode_lower : string → string;
  unicode_upper : string → string;
  unicode_isalnum : string → bool;
}.

(** The tables used to evaluate examples: the examples are ASCII texts, on
    which the tables are never consulted. *)
Definition ascii_runtime : Unicode :=
  {| unicode_lower := λ s, s; unicode_upper := λ s, s; unicode_isalnum := λ _, false |}.

Module Py.

(** The newline and the double quote, which have no literal of their own. *)
Definition nl : string := String (ascii_of_nat 10) "".
Definition dq : string := String (ascii_of_nat 34) "".

(** [s.endswith(suf)] *)
Fixpoint endswith (s suf : string) : bool :=
  if String.eqb s suf then true
  else match s with
       | EmptyString => false
       | String _ s' => endswith s' suf
       end.

(** [pat in s] *)
Fixpoint contains (pat s : string) : bool :=
  if String.prefix pat s then true
  else match s with
       | EmptyString => false
       | String _ s' => contains pat s'
       end.

(** [s[:-n]] for [n >= 1] *)
Definition drop_last (n : nat) (s : string) : string :=
  String.substring 0 (String.length s - n) s.

Definition is_upper (c : ascii) : bool :=
  (65 <=? nat_of_ascii c) && (nat_of_ascii c <=? 90).
Definition is_lower (c : ascii) : bool :=
  (97 <=? nat_of_ascii c) && (nat_of_ascii c <=? 122).
Definition is_digit (c : ascii) : bool :=
  (48 <=? nat_of_ascii c) && (nat_of_ascii c <=? 57).

(** ASCII characters are single bytes below 128; the other characters are
    sequences of two to four bytes, a leading byte and continuation bytes
    in the range 128..191. *)
Definition is_ascii_char (c : ascii) : bool := nat_of_ascii c <? 128.
Definition is_continuation (c : ascii) : bool :=
  (128 <=? nat_of_ascii c) && (nat_of_ascii c <? 192).

Fixpoint is_ascii (s : string) : bool :=
  match s with
  | EmptyString => true
  | String c s' => is_ascii_char c && is_ascii s'
  end.

(** [for ch in s]: the characters of a text, one string per character. *)
Fixpoint chars (s : string) : list string :=
  match s with
  | EmptyString => []
  | String c s' =>
      match s' with
      | EmptyString => [String c EmptyString]
      | String d _ =>
          if is_continuation d then
            match chars s' with
            | ch :: rest => String c ch :: rest
            | [] => [String c EmptyString]
            end
          else String c EmptyString :: chars s'
      end
  end.

(** The letters and digits among the ASCII characters. *)
Definition is_alnum_ascii (c : ascii) : bool := is_upper c || is_lower c || is_digit c.

(** [ch.isalnum()] for one character [ch] *)
Definition isalnum `{Unicode} (ch : string) : bool :=
  match ch with
  | String c EmptyString => if is_ascii_char c then is_alnum_ascii c else unicode_isalnum ch
  | _ => unicode_isalnum ch
  end.

(** The characters [str.rstrip()] removes: tab, line feed, vertical tab,
    form feed, carriage return, the four separators 28..31 and the space. *)
Definition isspace (c : ascii) : bool :=
  let n := nat_of_ascii c in
  ((9 <=? n) && (n <=? 13)) || ((28 <=? n) && (n <=? 32)).

Definition lower_char (c : ascii) : ascii :=
  if is_upper c then ascii_of_nat (nat_of_ascii c + 32) else c.
Definition upper_char (c : ascii) : ascii :=
  if is_lower c then ascii_of_nat (nat_of_ascii c - 32) else c.

Fixpoint map_chars (f : ascii → ascii) (s : string) : string :=
  match s with
  | EmptyString => EmptyString
  | String c s' => String (f c) (map_chars f s')
  end.

(** [s.lower()] and [s.upper()]: on ASCII text the letters A..Z and a..z
    are mapped and nothing else changes. *)
Definition lower `{Unicode} (s : string) : string :=
  if is_ascii s then map_chars lower_char s else unicode_lower s.
Definition upper `{Unicode} (s : string) : string :=
  if is_ascii s then map_chars upper_char s else unicode_upper s.

(** [sep.join(l)] *)
Definition join (sep : string) (l : list string) : string := String.concat sep l.

(** [s.rstrip()] *)
Fixpoint rstrip (s : string) : string :=
  match s with
  | EmptyString => EmptyString
  | String c s' =>
      match rstrip s' with
      | EmptyString => if isspace c then EmptyString else String c EmptyString
      | r => String c r
      end
  end.

(** [s.split(sep)] for a one-character separator *)
Fixpoint split (sep : ascii) (s : string) : list string :=
  match s with
  | EmptyString => [EmptyString]
  | String c s' =>
      if Ascii.eqb c sep then EmptyString :: split sep s'
      else match split sep s' with
           | [] => [String c EmptyString]
           | p :: ps => String c p :: ps
           end
  end.

(** [l[-1]] on a list of strings that is never empty here *)
Definition last_part (l : list string) : string := List.last l EmptyString.

(** [d.get(k, dflt)] on a dict literal with string keys and values *)
Fixpoint dict_get (d : list (string * string)) (k dflt : string) : string :=
  match d with
  | [] => dflt
  | (k', v) :: d' => if String.eqb k' k then v else dict_get d' k dflt
  end.

(** [sorted(l, key=...)]: a stable sort, given the comparison [le x y] of
    the keys of [x] and [y] (insertion from the right keeps elements with
    equal keys in their original order, as Python's sort does). *)
Section Sorted.
Context {A : Type} (le : A → A → bool).

Fixpoint insert_sorted (x : A) (l : list A) : list A :=
  match l with
  | [] => [x]
  | y :: l' =>
      if le x y then x :: y :: l'
      else y :: insert_sorted x l'
  end.

Fixpoint sorted (l : list A) : list A :=
  match l with
  | [] => []
  | x :: l' => insert_sorted x (sorted l')
  end.
End Sorted.

End Py.

(** The direction token of a relationship field. *)
Inductive Direction := OUT | IN.

Global Instance Direction_eq_dec : EqDecision Direction.
Proof. solve_decision. Defined.

Definition direction_str (d : Direction) : string :=
  match d with OUT => "OUT" | IN => "IN" end.

(** A relationship field as it is written on a type block. *)
Record CompiledField := {
  field_name : string;
  field_target : string;
  field_label : string;
  field_direction : Direction;
}.

(** [f"  {field_name}: [{target}!]! @relationship(type: \"{label}\", direction: {direction})"] *)
Definition relationship_line (f : CompiledField) : string :=
  "  " +:+ field_name f +:+ ": [" +:+ field_target f +:+ "!]! @relationship(type: "
    +:+ Py.dq +:+ field_label f +:+ Py.dq +:+ ", direction: "
    +:+ direction_str (field_direction f) +:+ ")".

(** [rel_key = f"{rel_type}_{target_node}_{direction}"] *)
Definition rel_key (rel_type target_node : string) (direction : Direction) : string :=
  rel_type +:+ "_" +:+ target_node +:+ "_" +:+ direction_str direction.

(** The field name of a relationship to [target_node] on the type
    [node_name]; the same statements occur in both passes of
    [data-model-schema-graphql.py] and in [memgraph-schema-graphql.py]. *)
Definition relationship_field_name (node_name target_node : string) : string :=
  if negb (Py.endswith target_node "s") && negb (String.eqb target_node node_name) then
    if Py.endswith target_node "y" then Py.drop_last 1 target_node +:+ "ies"
    else if Py.endswith target_node "s" then target_node
    else target_node +:+ "s"
  else target_node.

(** ** data-model-schema-graphql.py *)

Module Plain.

(** One endpoint pair of a relationship definition. *)
Record End := { Src : string; Dst : string }.

(** A value of the [Relationships] mapping; [Ends] is [None] when the
    definition is empty or has no ['Ends'] key. *)
Record RelDef := { Ends : option (list End) }.

(** A value of [PropDefinitions]; [Type_] is [None] when the definition
    has no ['Type'] key or its value is null, and holds [str(Type)]
    otherwise. The empty definition is what [get_property_definition]
    returns for an unknown property. *)
Record PropDef := { Type_ : option string }.
Definition empty_def : PropDef := {| Type_ := None |}.

(** A value of the [Nodes] mapping. *)
Record NodeDef := { Props : option (list string) }.

Definition type_mapping : list (string * string) :=
  [ ("string", "String"); ("integer", "Int"); ("int", "Int");
    ("float", "Float"); ("number", "Float"); ("boolean", "Boolean");
    ("date", "String"); ("datetime", "String") ].

Definition numeric_patterns : list string :=
  [ "age_at_"; "number_of_"; "_count"; "_size"; "_length";
    "coverage"; "avg_read_length"; "number_of_bp"; "number_of_reads";
    "vaf_numeric"; "test_result_numeric"; "passage_number";
    "magnetic_field_strength"; "repetition_time"; "echo_time";
    "inversion_time"; "flip_angle"; "pixel_spacing"; "slice_thickness";
    "magnification"; "participant_age_"; "year_of_"; "pack_years_";
    "years_"; "cigarettes_per_day"; "alcohol_days_per_week";
    "alcohol_drinks_per_day" ].

Definition boolean_patterns : list string := [ "indicator"; "_flag"; "is_"; "has_" ].

(** [for pattern in patterns: if pattern in s: return ...]: does the loop
    return? *)
Fixpoint any_pattern_in (patterns : list string) (s : string) : bool :=
  match patterns with
  | [] => false
  | pattern :: rest =>
      if Py.contains pattern s then true else any_pattern_in rest s
  end.

Definition determine_graphql_type `{Unicode} (prop_name : string) (prop_def : option PropDef)
  : string :=
  match prop_def with
  | Some {| Type_ := Some ty |} => Py.dict_get type_mapping (Py.lower ty) "String"
  | _ =>
      if Py.endswith prop_name "_id" || String.eqb prop_name "id" then "String"
      else
        let prop_lower := Py.lower prop_name in
        if any_pattern_in numeric_patterns prop_lower then "Int"
        else if any_pattern_in boolean_patterns prop_lower then "Boolean"
        else "String"
  end.

(** [if k not in m: m[k] = []] followed by [m[k].append(t)] *)
Definition map_append (m : gmap string (list (string * string * Direction)))
    (k : string) (t : string * string * Direction)
  : gmap string (list (string * string * Direction)) :=
  <[k := default [] (m !! k) ++ [t]]> m.

Definition add_end (rel_name : string)
    (m : gmap string (list (string * string * Direction))) (e : End)
  : gmap string (list (string * string * Direction)) :=
  let src_node := Src e in
  let dst_node := Dst e in
  let m := map_append m src_node (rel_name, dst_node, OUT) in
  map_append m dst_node (rel_name, src_node, IN).

Definition add_relationship
    (m : gmap string (list (string * string * Direction)))
    (r : string * option RelDef)
  : gmap string (list (string * string * Direction)) :=
  match r with
  | (rel_name, Some {| Ends := Some ends |}) => foldl (add_end rel_name) m ends
  | _ => m
  end.

Definition build_relationship_map (relationships : list (string * option RelDef))
  : gmap string (list (string * string * Direction)) :=
  foldl add_relationship ∅ relationships.

Definition get_property_definition (prop_name : string)
    (prop_definitions : gmap string PropDef) : PropDef :=
  default empty_def (prop_definitions !! prop_name).

(** The state of the two relationship loops of [generate_node_type]; the
    lines they append are kept as [emit] applied to the field written. *)
Record LoopState (A : Type) := {
  added_relationships : gset string;
  added_field_names : gset string;
  appended : list A;
}.
Arguments added_relationships {A}.
Arguments added_field_names {A}.
Arguments appended {A}.

Section Passes.
Context {A : Type} (emit : CompiledField → A) (node_name : string).

(** Body of the first loop ("process OUT relationships first"). *)
Definition out_step (st : LoopState A) (r : string * string * Direction) : LoopState A :=
  let '(rel_type, target_node, direction) := r in
  if decide (direction ≠ OUT) then st
  else
    let key := rel_key rel_type target_node direction in
    if decide (key ∈ added_relationships st) then st
    else
      let name := relationship_field_name node_name target_node in
      {| added_relationships := added_relationships st ∪ {[key]};
         added_field_names := added_field_names st ∪ {[name]};
         appended := appended st ++
           [emit {| field_name := name; field_target := target_node;
                    field_label := rel_type; field_direction := direction |}] |}.

(** Body of the second loop ("process IN relationships, but skip if
    field name already exists"). *)
Definition in_step (st : LoopState A) (r : string * string * Direction) : LoopState A :=
  let '(rel_type, target_node, direction) := r in
  if decide (direction ≠ IN) then st
  else
    let key := rel_key rel_type target_node direction in
    if decide (key ∈ added_relationships st) then st
    else
      let st_keys := added_relationships st ∪ {[key]} in
      let name := relationship_field_name node_name target_node in
      if decide (name ∈ added_field_names st) then
        {| added_relationships := st_keys;
           added_field_names := added_field_names st;
           appended := appended st |}
      else
        {| added_relationships := st_keys;
           added_field_names := added_field_names st ∪ {[name]};
           appended := appended st ++
             [emit {| field_name := name; field_target := target_node;
                      field_label := rel_type; field_direction := direction |}] |}.

Definition init_state : LoopState A :=
  {| added_relationships := ∅; added_field_names := ∅; appended := [] |}.

Definition out_pass (node_relationships : list (string * string * Direction)) : LoopState A :=
  foldl out_step init_state node_relationships.

Definition relationship_passes (node_relationships : list (string * string * Direction)) : list A :=
  appended (foldl in_step (out_pass node_relationships) node_relationships).
End Passes.

(** The relationship fields of a type block, in the order written. *)
Definition relationship_fields (node_name : string)
    (node_relationships : list (string * string * Direction)) : list CompiledField :=
  relationship_passes id node_name node_relationships.

Definition property_line `{Unicode} (prop_definitions : gmap string PropDef)
    (prop_name : string) : string :=
  let prop_def := get_property_definition prop_name prop_definitions in
  let field_type := determine_graphql_type prop_name (Some prop_def) in
  "  " +:+ prop_name +:+ ": " +:+ field_type.

Definition generate_node_type `{Unicode} (node_name : string) (node_def : NodeDef)
    (relationship_map : gmap string (list (string * string * Direction)))
    (prop_definitions : gmap string PropDef) : string :=
  let lines := ["type " +:+ node_name +:+ " {"] in
  let lines :=
    match Props node_def with
    | Some props => lines ++ map (property_line prop_definitions) props
    | None => lines
    end in
  let node_relationships := default [] (relationship_map !! node_name) in
  let lines := lines ++ relationship_passes relationship_line node_name node_relationships in
  let lines := lines ++ ["}"] in
  let lines := lines ++ [""] in
  Py.join Py.nl lines.

(** The parsed model file and the parsed properties file. *)
Record ModelData := {
  Nodes : list (string * NodeDef);
  Relationships : list (string * option RelDef);
}.
Record PropsData := { PropDefinitions : gmap string PropDef }.

Definition boilerplate : list string :=
  [ "#graphql"; "";
    "# Type for field count results";
    "type FieldCount {"; "  field: String!"; "  count: Int!"; "}"; "" ].

Definition process_ccdi_model `{Unicode} (model_data : ModelData) (props_data : PropsData)
  : string :=
  let output_lines := boilerplate in
  let nodes := Nodes model_data in
  let relationships := Relationships model_data in
  let prop_definitions := PropDefinitions props_data in
  let relationship_map := build_relationship_map relationships in
  let output_lines :=
    output_lines ++
    map (λ '(node_name, node_def),
           generate_node_type node_name node_def relationship_map prop_definitions)
        nodes in
  Py.join Py.nl output_lines.

(** What [main] writes on the standard output once both files are loaded:
    [print(graphql_schema)]. *)
Definition main_stdout `{Unicode} (model_data : ModelData) (props_data : PropsData) : string :=
  process_ccdi_model model_data props_data +:+ Py.nl.

End Plain.

(** ** data-model-schema-graphql-mdf.py *)

Module Mdf.

(** The parts of the bento-meta objects the generator reads. [props] and
    the model's [nodes] and [edges] are dicts, kept in insertion order. *)
Record Property := { value_domain : option string; item_domain : option string }.
Record Node := { handle : string; props : list (string * Property) }.
(** [edge_handle], [src] and [dst] stand for [edge.handle],
    [edge.src.handle] and [edge.dst.handle]. *)
Record Edge := { edge_handle : string; src : string; dst : string }.
Record Model := { model_handle : string; nodes : list Node; edges : list Edge }.

Definition scalar_map : list (string * string) :=
  [ ("string", "String"); ("regexp", "String"); ("value_set", "String");
    ("integer", "Int"); ("int", "Int");
    ("float", "Float"); ("number", "Float"); ("double", "Float");
    ("boolean", "Boolean"); ("bool", "Boolean") ].

Definition map_value_domain_to_graphql `{Unicode} (prop : Property) : string :=
  let domain := Py.lower (default "" (value_domain prop)) in
  let item := Py.lower (default "" (item_domain prop)) in
  if String.eqb domain "list" then
    let elem :=
      if String.eqb item "" then "String" else Py.dict_get scalar_map item "String" in
    "[" +:+ elem +:+ "]"
  else Py.dict_get scalar_map domain "String".

Definition singularize (name : string) : string :=
  if Py.endswith name "ies" then Py.drop_last 3 name +:+ "y"
  else if Py.endswith name "ses" then Py.drop_last 2 name
  else if Py.endswith name "s" && negb (Py.endswith name "ss") then Py.drop_last 1 name
  else name.

(** [idx = used.get(base, 0); used[base] = idx + 1;
    fname = base if idx == 0 else f"{base}_{idx+1}"] *)
Definition next_name (used : gmap string nat) (base : string) : gmap string nat * string :=
  let idx := default 0 (used !! base) in
  let used := <[base := idx + 1]> used in
  let fname := if decide (idx = 0) then base else base +:+ "_" +:+ pretty (idx + 1) in
  (used, fname).

Definition out_step `{Unicode} (node : Node)
    (st : list (string * string * Direction) * gmap string nat) (edge : Edge)
  : list (string * string * Direction) * gmap string nat :=
  let '(rels, used) := st in
  if String.eqb (src edge) (handle node) then
    let target := dst edge in
    let base := Py.lower (singularize target) +:+ "_" +:+ Py.lower (edge_handle edge) in
    let '(used, fname) := next_name used base in
    (rels ++ [(fname, target, OUT)], used)
  else st.

Definition in_step `{Unicode} (node : Node)
    (st : list (string * string * Direction) * gmap string nat) (edge : Edge)
  : list (string * string * Direction) * gmap string nat :=
  let '(rels, used) := st in
  if String.eqb (dst edge) (handle node) then
    let source := src edge in
    let base := Py.lower (singularize (handle node)) +:+ "_" +:+ Py.lower (edge_handle edge) in
    let '(used, fname) := next_name used base in
    (rels ++ [(fname, source, IN)], used)
  else st.

Definition direction_rank (d : Direction) : nat :=
  match d with OUT => 0 | IN => 1 end.

(** Comparison of the sort keys [(0 if r[2] == "OUT" else 1, r[0])]. *)
Definition rel_key_le (r1 r2 : string * string * Direction) : bool :=
  let '(f1, _, d1) := r1 in
  let '(f2, _, d2) := r2 in
  (direction_rank d1 <? direction_rank d2)%nat
  || ((direction_rank d1 =? direction_rank d2)%nat && String.leb f1 f2).

(** The fields before [rels.sort]. *)
Definition unsorted_relationship_fields `{Unicode} (model : Model) (node : Node)
  : list (string * string * Direction) :=
  let st := foldl (out_step node) ([], ∅) (edges model) in
  let st := foldl (in_step node) st (edges model) in
  st.1.

Definition build_relationship_fields `{Unicode} (model : Model) (node : Node)
  : list (string * string * Direction) :=
  Py.sorted rel_key_le (unsorted_relationship_fields model node).

(** [for edge in edges: if edge.handle.lower() == guess: return edge.handle.upper()] *)
Fixpoint find_edge_handle `{Unicode} (es : list Edge) (guess : string) : option string :=
  match es with
  | [] => None
  | edge :: es' =>
      if String.eqb (Py.lower (edge_handle edge)) guess then Some (Py.upper (edge_handle edge))
      else find_edge_handle es' guess
  end.

Definition _relationship_type_name `{Unicode} (model : Model) (field_name target : string)
    (direction : Direction) : string :=
  let parts := Py.split "_" field_name in
  let guess := Py.last_part parts in
  match find_edge_handle (edges model) guess with
  | Some name => name
  | None => Py.upper guess
  end.

(** [ch if ch.isalnum() or ch == '_' else '_'] *)
Definition safe_char `{Unicode} (ch : string) : string :=
  if Py.isalnum ch || String.eqb ch "_" then ch else "_".

(** ["".join(... for ch in pname)] *)
Definition safe_name `{Unicode} (pname : string) : string :=
  Py.join "" (safe_char <$> Py.chars pname).

(** Comparison of the items in [sorted(node.props.items())]; the keys of a
    dict are distinct, so the values are never compared. *)
Definition item_le (a b : string * Property) : bool := String.leb a.1 b.1.

Definition property_line `{Unicode} (item : string * Property) : string :=
  let '(pname, prop) := item in
  let gql_type := map_value_domain_to_graphql prop in
  let safe_name := safe_name pname in
  "  " +:+ safe_name +:+ ": " +:+ gql_type.

Definition field_line `{Unicode} (model : Model) (r : string * string * Direction) : string :=
  let '(field_name, target, direction) := r in
  relationship_line
    {| field_name := field_name; field_target := target;
       field_label := _relationship_type_name model field_name target direction;
       field_direction := direction |}.

Definition type_lines `{Unicode} (model : Model) (node : Node) : list string :=
  let lines := ["type " +:+ handle node +:+ " {"] in
  let lines := lines ++ map property_line (Py.sorted item_le (props node)) in
  let lines := lines ++ map (field_line model) (build_relationship_fields model node) in
  lines ++ ["}"].

Definition generate_type_sdl `{Unicode} (model : Model) (node : Node) : string :=
  Py.join Py.nl (type_lines model node).

Definition node_le (n1 n2 : Node) : bool := String.leb (handle n1) (handle n2).

Definition header (model : Model) : list string :=
  [ "#graphql"; "";
    "# Auto-generated from MDF using bento_mdf";
    "# Model Handle: " +:+ model_handle model;
    "";
    "type FieldCount {"; "  field: String!"; "  count: Int!"; "}"; "" ].

Definition generate_schema `{Unicode} (model : Model) : string :=
  let out := header model in
  let out :=
    out ++ flat_map (λ node, [generate_type_sdl model node; ""])
                    (Py.sorted node_le (nodes model)) in
  Py.rstrip (Py.join Py.nl out) +:+ Py.nl.

End Mdf.

(** ** memgraph-schema-graphql.py *)

Module Memgraph.

(** An edge record of the schema JSON; [edge_type] is [edge.get("type", "")]. *)
Record EdgeRecord := {
  edge_type : string;
  start_node_labels : list string;
  end_node_labels : list string;
}.
Record PropertyRecord := { key : string; types : list string }.

Definition extract_node_label (labels : list string) : string :=
  match labels with
  | label :: _ => label
  | [] => "unknown"
  end.

(** The numeric test of [determine_field_type] is commented out in the
    source. *)
Definition determine_field_type (property_key : string) (types : list string) : string :=
  "String".

Definition add_edge (m : gmap string (list (string * string * Direction))) (edge : EdgeRecord)
  : gmap string (list (string * string * Direction)) :=
  let rel_type := edge_type edge in
  match start_node_labels edge, end_node_labels edge with
  | [], _ | _, [] => m
  | start_labels, end_labels =>
      let start_label := extract_node_label start_labels in
      let end_label := extract_node_label end_labels in
      let m := Plain.map_append m start_label (rel_type, end_label, OUT) in
      Plain.map_append m end_label (rel_type, start_label, IN)
  end.

Definition build_relationship_map (edges : list EdgeRecord)
  : gmap string (list (string * string * Direction)) :=
  foldl add_edge ∅ edges.

Section Pass.
Context {A : Type} (emit : CompiledField → A) (node_label : string).

(** Body of the single relationship loop: [(added_relationships, lines)]. *)
Definition step (st : gset string * list A) (r : string * string * Direction)
  : gset string * list A :=
  let '(added_relationships, lines) := st in
  let '(rel_type, target_label, direction) := r in
  let key := rel_key rel_type target_label direction in
  if decide (key ∈ added_relationships) then st
  else
    let name := relationship_field_name node_label target_label in
    (added_relationships ∪ {[key]},
     lines ++ [emit {| field_name := name; field_target := target_label;
                       field_label := rel_type; field_direction := direction |}]).

Definition relationship_pass (relationships : list (string * string * Direction)) : list A :=
  (foldl step (∅, []) relationships).2.
End Pass.

Definition relationship_fields (node_label : string)
    (relationships : list (string * string * Direction)) : list CompiledField :=
  relationship_pass id node_label relationships.

Definition property_line (prop : PropertyRecord) : string :=
  "  " +:+ key prop +:+ ": " +:+ determine_field_type (key prop) (types prop).

Definition generate_node_type (node_label : string) (properties : list PropertyRecord)
    (relationships : list (string * string * Direction)) : string :=
  let lines := ["type " +:+ node_label +:+ " {"] in
  let lines := lines ++ map property_line properties in
  let lines := lines ++ relationship_pass relationship_line node_label relationships in
  Py.join Py.nl (lines ++ ["}"; ""]).

(** A node record of the schema JSON, and the two arrays under its
    ["schema"] key. *)
Record NodeRecord := { labels : list string; properties : list PropertyRecord }.
Record SchemaData := { schema_nodes : list NodeRecord; schema_edges : list EdgeRecord }.

(** The type definitions one node adds to the output lines: none when the
    node has no labels. *)
Definition node_lines (relationship_map : gmap string (list (string * string * Direction)))
    (node : NodeRecord) : list string :=
  match labels node with
  | [] => []
  | _ =>
      let node_label := extract_node_label (labels node) in
      let node_relationships := default [] (relationship_map !! node_label) in
      [generate_node_type node_label (properties node) node_relationships]
  end.

Definition process_schema_json (schema_data : SchemaData) : string :=
  let output_lines := ["#graphql"; ""] in
  let nodes := schema_nodes schema_data in
  let edges := schema_edges schema_data in
  let relationship_map := build_relationship_map edges in
  let output_lines := output_lines ++ flat_map (node_lines relationship_map) nodes in
  Py.join Py.nl output_lines.

End Memgraph.

Section Properties.
Context `{runtime : Unicode}.

(** ** Vocabulary of the proofs *)

(** The fact a field was written for, its de-duplication key, and the field
    written for a fact. *)
Definition fact_of (f : CompiledField) : string * string * Direction :=
  (field_label f, field_target f, field_direction f).

Definition key_of (f : CompiledField) : string :=
  rel_key (field_label f) (field_target f) (field_direction f).

Definition field_of (node_name : string) (r : string * string * Direction) : CompiledField :=
  {| field_name := relationship_field_name node_name r.1.2;
     field_target := r.1.2; field_label := r.1.1; field_direction := r.2 |}.

(** A loop state with its fields rendered by [emit]. *)
Definition map_state {A} (emit : CompiledField → A) (st : Plain.LoopState CompiledField)
  : Plain.LoopState A :=
  {| Plain.added_relationships := Plain.added_relationships st;
     Plain.added_field_names := Plain.added_field_names st;
     Plain.appended := emit <$> Plain.appended st |}.

(** What one loop iteration can do: leave the lines alone, or append the
    field of the fact under a fresh key. [P names f] is what the loop has
    checked of [f] against the field names accepted so far. *)
Inductive step_result (P : gset string → CompiledField → Prop) (node_name : string)
    (r : string * string * Direction) (st st' : Plain.LoopState CompiledField) : Prop :=
| step_skip :
    Plain.appended st' = Plain.appended st →
    Plain.added_field_names st' = Plain.added_field_names st →
    Plain.added_relationships st ⊆ Plain.added_relationships st' →
    step_result P node_name r st st'
| step_append :
    key_of (field_of node_name r) ∉ Plain.added_relationships st →
    P (Plain.added_field_names st) (field_of node_name r) →
    Plain.appended st' = Plain.appended st ++ [field_of node_name r] →
    Plain.added_field_names st' = Plain.added_field_names st ∪ {[field_name (field_of node_name r)]} →
    Plain.added_relationships st' = Plain.added_relationships st ∪ {[key_of (field_of node_name r)]} →
    step_result P node_name r st st'.

Definition out_checked (names : gset string) (f : CompiledField) : Prop :=
  field_direction f = OUT.
Definition in_checked (names : gset string) (f : CompiledField) : Prop :=
  field_direction f = IN ∧ field_name f ∉ names.

(** The fields a loop appends, each fresh against the keys and checked
    against the names accepted before it. *)
Fixpoint accepted_chain (P : gset string → CompiledField → Prop)
    (keys names : gset string) (fs : list CompiledField) : Prop :=
  match fs with
  | [] => True
  | f :: fs' =>
      (key_of f ∉ keys) ∧ P names f ∧
      accepted_chain P (keys ∪ {[key_of f]}) (names ∪ {[field_name f]}) fs'
  end.

(** The facts [build_relationship_map] files under [node_name]: what one
    endpoint pair contributes, and all of them in document order. *)
Definition facts_of_end (rel_name node_name : string) (e : Plain.End)
  : list (string * string * Direction) :=
  (if decide (Plain.Src e = node_name) then [(rel_name, Plain.Dst e, OUT)] else [])
  ++ (if decide (Plain.Dst e = node_name) then [(rel_name, Plain.Src e, IN)] else []).

Definition facts_of_relationship (node_name : string) (r : string * option Plain.RelDef)
  : list (string * string * Direction) :=
  match r with
  | (rel_name, Some {| Plain.Ends := Some ends |}) =>
      flat_map (facts_of_end rel_name node_name) ends
  | _ => []
  end.

Definition facts_for (node_name : string) (relationships : list (string * option Plain.RelDef))
  : list (string * string * Direction) :=
  flat_map (facts_of_relationship node_name) relationships.

(** The relationship fields of a node of a model, through the map. *)
Definition node_fields (relationships : list (string * option Plain.RelDef))
    (node_name : string) : list CompiledField :=
  Plain.relationship_fields node_name
    (default [] (Plain.build_relationship_map relationships !! node_name)).

(** A relationship section with one label and one endpoint pair. *)
Definition single_fact (label source destination : string)
  : list (string * option Plain.RelDef) :=
  [ (label, Some {| Plain.Ends := Some [ {| Plain.Src := source; Plain.Dst := destination |} ] |}) ].

(** Two labels between the same pair of types. *)
Definition two_labels_one_pair : list (string * option Plain.RelDef) :=
  single_fact "of_sample" "diagnosis" "sample" ++ single_fact "from_sample" "diagnosis" "sample".

(** A field name of the metadata-driven variant: the base name, or the
    base name with an occurrence counter from 2 on. *)
Definition counted_name (base fname : string) : Prop :=
  fname = base ∨ ∃ k : nat, 2 ≤ k ∧ fname = base +:+ "_" +:+ pretty k.

(** The base names of build_relationship_fields for an edge at a node. *)
Definition out_base (edge : Mdf.Edge) : string :=
  Py.lower (Mdf.singularize (Mdf.dst edge)) +:+ "_" +:+ Py.lower (Mdf.edge_handle edge).
Definition in_base (node : Mdf.Node) (edge : Mdf.Edge) : string :=
  Py.lower (Mdf.singularize (Mdf.handle node)) +:+ "_" +:+ Py.lower (Mdf.edge_handle edge).

(** The model with the two node types and the one edge of [single_fact]. *)
Definition mdf_node (h : string) : Mdf.Node := {| Mdf.handle := h; Mdf.props := [] |}.
Definition mdf_single_fact (label source destination : string) : Mdf.Model :=
  {| Mdf.model_handle := "CCDI";
     Mdf.nodes := [mdf_node source; mdf_node destination];
     Mdf.edges := [ {| Mdf.edge_handle := label; Mdf.src := source; Mdf.dst := destination |} ] |}.

(** The three classes of the inference by name. *)
Definition id_like (prop_name : string) : Prop :=
  Py.endswith prop_name "_id" = true ∨ prop_name = "id".
Definition numeric_like (prop_name : string) : Prop :=
  ∃ p, p ∈ Plain.numeric_patterns ∧ Py.contains p (Py.lower prop_name) = true.
Definition boolean_like (prop_name : string) : Prop :=
  ∃ p, p ∈ Plain.boolean_patterns ∧ Py.contains p (Py.lower prop_name) = true.

(** The inference by name with the boolean class read as the specification
    words it: "indicator" and "_flag" anywhere, "is_" and "has_" at the start
    of the name only. *)
Definition spec_boolean_match (prop_lower : string) : bool :=
  Py.contains "indicator" prop_lower || Py.contains "_flag" prop_lower
  || String.prefix "is_" prop_lower || String.prefix "has_" prop_lower.

Definition spec_infer_by_name (prop_name : string) : string :=
  if Py.endswith prop_name "_id" || String.eqb prop_name "id" then "String"
  else if Plain.any_pattern_in Plain.numeric_patterns (Py.lower prop_name) then "Int"
  else if spec_boolean_match (Py.lower prop_name) then "Boolean"
  else "String".

(** The text generate_schema puts before the type blocks, without the blank
    line that follows it, and the text of the type blocks, each after one
    blank line. *)
Definition mdf_preamble_lines (model : Mdf.Model) : list string :=
  [ "#graphql"; "";
    "# Auto-generated from MDF using bento_mdf";
    "# Model Handle: " +:+ Mdf.model_handle model;
    "";
    "type FieldCount {"; "  field: String!"; "  count: Int!"; "}" ].

Definition mdf_preamble (model : Mdf.Model) : string :=
  Py.join Py.nl (mdf_preamble_lines model).

Fixpoint mdf_blocks (model : Mdf.Model) (ns : list Mdf.Node) : string :=
  match ns with
  | [] => ""
  | n :: ns' => Py.nl +:+ Py.nl +:+ Mdf.generate_type_sdl model n +:+ mdf_blocks model ns'
  end.

(** The same for process_ccdi_model: the text before the type blocks, and
    the type blocks, each on a new line. *)
Definition plain_preamble_lines : list string :=
  [ "#graphql"; "";
    "# Type for field count results";
    "type FieldCount {"; "  field: String!"; "  count: Int!"; "}" ].

Definition plain_preamble : string := Py.join Py.nl plain_preamble_lines.

Definition plain_block (model_data : Plain.ModelData) (props_data : Plain.PropsData)
    (node : string * Plain.NodeDef) : string :=
  Plain.generate_node_type node.1 node.2
    (Plain.build_relationship_map (Plain.Relationships model_data))
    (Plain.PropDefinitions props_data).

Fixpoint plain_blocks (model_data : Plain.ModelData) (props_data : Plain.PropsData)
    (nodes : list (string * Plain.NodeDef)) : string :=
  match nodes with
  | [] => ""
  | node :: nodes' =>
      Py.nl +:+ plain_block model_data props_data node
      +:+ plain_blocks model_data props_data nodes'
  end.

(** A model file of the plain generator with two node types, the later one
    first in the alphabet, and no relationships. *)
Definition plain_two_nodes : Plain.ModelData :=
  {| Plain.Nodes := [ ("sample", {| Plain.Props := None |});
                      ("diagnosis", {| Plain.Props := None |}) ];
     Plain.Relationships := [] |}.

(** A node with its attributes replaced. *)
Definition with_props (node : Mdf.Node) (props' : list (string * Mdf.Property)) : Mdf.Node :=
  {| Mdf.handle := Mdf.handle node; Mdf.props := props' |}.

(** The four scalars an attribute line can carry. *)
Definition scalars : list string := ["String"; "Int"; "Float"; "Boolean"].

(** The characters generate_type_sdl keeps in a field name, and a test of
    all characters of a string. *)
Definition valid_char (ch : ascii) : bool := Py.is_alnum_ascii ch || Ascii.eqb ch "_".

(** What becomes of an ASCII character in a field name. *)
Definition ascii_safe_char (ch : ascii) : ascii := if valid_char ch then ch else "_"%char.

Fixpoint all_chars (P : ascii → bool) (s : string) : bool :=
  match s with
  | EmptyString => true
  | String c s' => P c && all_chars P s'
  end.

(** The edges of a node as build_relationship_fields meets them: base name,
    adjacent type and direction, the outgoing edges first. *)
Definition mdf_out_items (model : Mdf.Model) (node : Mdf.Node)
  : list (string * string * Direction) :=
  (λ e, (out_base e, Mdf.dst e, OUT))
    <$> filter (λ e, Mdf.src e = Mdf.handle node) (Mdf.edges model).

Definition mdf_in_items (model : Mdf.Model) (node : Mdf.Node)
  : list (string * string * Direction) :=
  (λ e, (in_base node e, Mdf.src e, IN))
    <$> filter (λ e, Mdf.dst e = Mdf.handle node) (Mdf.edges model).

(** How often a base name was used before, and the name given to its next
    use: the base name itself the first time, the base name with the number
    of the occurrence afterwards. *)
Definition occurrences (base : string) (seen : list string) : nat :=
  length (filter (λ b, b = base) seen).

Definition numbered_name (seen : list string) (base : string) : string :=
  if decide (occurrences base seen = 0) then base
  else base +:+ "_" +:+ pretty (occurrences base seen + 1).

Fixpoint number_names (seen : list string) (items : list (string * string * Direction))
  : list (string * string * Direction) :=
  match items with
  | [] => []
  | (base, t, d) :: items' => (numbered_name seen base, t, d) :: number_names (base :: seen) items'
  end.

(** One use of the name counter, as both loops of build_relationship_fields
    make it. *)
Definition name_step (st : list (string * string * Direction) * gmap string nat)
    (item : string * string * Direction)
  : list (string * string * Direction) * gmap string nat :=
  ((st.1 ++ [((Mdf.next_name st.2 item.1.1).2, item.1.2, item.2)]),
   (Mdf.next_name st.2 item.1.1).1).

(** A model with its nodes replaced. *)
Definition with_nodes (model : Mdf.Model) (nodes' : list Mdf.Node) : Mdf.Model :=
  {| Mdf.model_handle := Mdf.model_handle model; Mdf.nodes := nodes';
     Mdf.edges := Mdf.edges model |}.

(** The de-duplication key of a fact, and what the relationship loops owe
    to the facts of a node: every accepted field name is the name of a field
    written, and every key recorded is the key of a field written or the key
    of an IN fact whose field name is the name of a field written. *)
Definition fact_key (r : string * string * Direction) : string := rel_key r.1.1 r.1.2 r.2.

Definition accounted (node_name : string) (all : list (string * string * Direction))
    (st : Plain.LoopState CompiledField) : Prop :=
  (∀ n, n ∈ Plain.added_field_names st → ∃ f, f ∈ Plain.appended st ∧ field_name f = n) ∧
  (∀ k, k ∈ Plain.added_relationships st →
     ∃ f, f ∈ Plain.appended st ∧
          (key_of f = k ∨
           ∃ r, r ∈ all ∧ r.2 = IN ∧ fact_key r = k ∧
                field_name f = relationship_field_name node_name r.1.2)).

(** The three effects an iteration of a relationship loop can have on the
    state: none, a field written, or (in the IN loop) a key recorded for a
    fact whose field name is taken. *)
Definition step_effect (node_name : string) (r : string * string * Direction)
    (st st' : Plain.LoopState CompiledField) : Prop :=
  st' = st ∨
  (Plain.appended st' = Plain.appended st ++ [field_of node_name r] ∧
   Plain.added_field_names st'
   = Plain.added_field_names st ∪ {[field_name (field_of node_name r)]} ∧
   Plain.added_relationships st' = Plain.added_relationships st ∪ {[fact_key r]}) ∨
  (r.2 = IN ∧ Plain.appended st' = Plain.appended st ∧
   Plain.added_field_names st' = Plain.added_field_names st ∧
   relationship_field_name node_name r.1.2 ∈ Plain.added_field_names st ∧
   Plain.added_relationships st' = Plain.added_relationships st ∪ {[fact_key r]}).

(** The facts memgraph-schema-graphql.py files under a label for one edge
    record: none when a label list is empty, else those of the first start
    label and the first end label. *)
Definition facts_of_edge (node_label : string) (edge : Memgraph.EdgeRecord)
  : list (string * string * Direction) :=
  match Memgraph.start_node_labels edge, Memgraph.end_node_labels edge with
  | start_label :: _, end_label :: _ =>
      (if decide (start_label = node_label)
       then [(Memgraph.edge_type edge, end_label, OUT)] else [])
      ++ (if decide (end_label = node_label)
          then [(Memgraph.edge_type edge, start_label, IN)] else [])
  | _, _ => []
  end.

(** Type blocks, each on a new line. *)
Fixpoint blocks_text (blocks : list string) : string :=
  match blocks with
  | [] => ""
  | b :: blocks' => Py.nl +:+ b +:+ blocks_text blocks'
  end.

(** The type block of a labelled node of the schema JSON. *)
Definition memgraph_block (schema_data : Memgraph.SchemaData) (node : Memgraph.NodeRecord)
  : string :=
  match Memgraph.labels node with
  | node_label :: _ =>
      Memgraph.generate_node_type node_label (Memgraph.properties node)
        (default [] (Memgraph.build_relationship_map (Memgraph.schema_edges schema_data)
                     !! node_label))
  | [] => ""
  end.

Definition labelled_nodes (schema_data : Memgraph.SchemaData) : list Memgraph.NodeRecord :=
  filter (λ node, Memgraph.labels node ≠ []) (Memgraph.schema_nodes schema_data).

(** * Properties *)

(** ** Facts about the string primitives *)

Lemma append_nil_l (s : string) : "" +:+ s = s.
Proof. reflexivity. Qed.

Lemma append_cons (c : ascii) (s t : string) : String c s +:+ t = String c (s +:+ t).
Proof. reflexivity. Qed.

Lemma append_nil_r (s : string) : s +:+ "" = s.
Proof. induction s as [|c s IH]; [done |]. by rewrite append_cons, IH. Qed.

Lemma append_assoc (s t u : string) : (s +:+ t) +:+ u = s +:+ t +:+ u.
Proof. induction s as [|c s IH]; [done |]. by rewrite !append_cons, IH. Qed.

Lemma append_length (s t : string) :
  String.length (s +:+ t) = String.length s + String.length t.
Proof. induction s as [|c s IH]; [done |]. rewrite append_cons. simpl. by rewrite IH. Qed.

Lemma append_eq_nil (s t : string) : s +:+ t = "" → s = "" ∧ t = "".
Proof. destruct s; [done |]. rewrite append_cons. discriminate. Qed.

(** The last character of a string can be cancelled. *)
Lemma append_snoc_inj (s t : string) (c d : ascii) :
  s +:+ String c "" = t +:+ String d "" → s = t ∧ c = d.
Proof.
  revert t. induction s as [|a s IH]; intros [|b t];
    rewrite ?append_cons, ?append_nil_l; intros H.
  - by inversion H.
  - inversion H as [[Ha Hs]]. symmetry in Hs. apply append_eq_nil in Hs as [_ ?]. done.
  - inversion H as [[Ha Hs]]. apply append_eq_nil in Hs as [_ ?]. done.
  - inversion H as [[Ha Hs]]. destruct (IH _ Hs) as [-> ->]. done.
Qed.

Lemma endswith_cons (a : ascii) (s suf : string) :
  Py.endswith (String a s) suf
  = if String.eqb (String a s) suf then true else Py.endswith s suf.
Proof. reflexivity. Qed.

Lemma endswith_spec (s suf : string) :
  Py.endswith s suf = true ↔ ∃ p, s = p +:+ suf.
Proof.
  induction s as [|a s IH].
  - split.
    + intros H. destruct suf; [by exists "" | done].
    + intros [p Hp]. symmetry in Hp. apply append_eq_nil in Hp as [_ ->]. done.
  - rewrite endswith_cons.
    destruct (String.eqb_spec (String a s) suf) as [<-|Hne].
    + split; [by exists "" | done].
    + rewrite IH. split.
      * intros [p ->]. by exists (String a p).
      * intros [[|b p] Hp]; [by rewrite append_nil_l in Hp |].
        rewrite append_cons in Hp. inversion Hp; subst. by exists p.
Qed.

Lemma endswith_nil (s : string) : Py.endswith s "" = true.
Proof. apply endswith_spec. exists s. by rewrite append_nil_r. Qed.

Lemma endswith_append (p suf : string) : Py.endswith (p +:+ suf) suf = true.
Proof. apply endswith_spec. by exists p. Qed.

(** Suffix tests proceed from the last character. *)
Lemma endswith_snoc (s suf : string) (c d : ascii) :
  Py.endswith (s +:+ String c "") (suf +:+ String d "")
  = bool_decide (c = d) && Py.endswith s suf.
Proof.
  apply eq_true_iff_eq. rewrite andb_true_iff, bool_decide_eq_true, !endswith_spec.
  split.
  - intros [p Hp]. rewrite <- append_assoc in Hp.
    apply append_snoc_inj in Hp as [-> ->]. eauto.
  - intros [-> [p ->]]. exists p. by rewrite append_assoc.
Qed.

Lemma endswith_snoc_1 (s : string) (c d : ascii) :
  Py.endswith (s +:+ String c "") (String d "") = bool_decide (c = d).
Proof.
  change (String d "") with ("" +:+ String d "").
  by rewrite endswith_snoc, endswith_nil, andb_true_r.
Qed.

Lemma substring_prefix (p t : string) : String.substring 0 (String.length p) (p +:+ t) = p.
Proof.
  induction p as [|c p IH]; [by destruct t |]. rewrite append_cons. simpl. by rewrite IH.
Qed.

(** [(p + suf)[:-len(suf)] = p] *)
Lemma drop_last_append (p suf : string) :
  Py.drop_last (String.length suf) (p +:+ suf) = p.
Proof.
  unfold Py.drop_last. rewrite append_length.
  replace (String.length p + String.length suf - String.length suf) with (String.length p) by lia.
  apply substring_prefix.
Qed.

Lemma rstrip_append (s t : string) :
  Py.rstrip t ≠ "" → Py.rstrip (s +:+ t) = s +:+ Py.rstrip t.
Proof.
  intros Ht. induction s as [|c s IH]; [done |].
  rewrite !append_cons. simpl. rewrite IH.
  destruct (s +:+ Py.rstrip t) eqn:E; [|done].
  apply append_eq_nil in E as [_ E]. done.
Qed.

Lemma join_cons (sep x : string) (l : list string) :
  l ≠ [] → Py.join sep (x :: l) = x +:+ sep +:+ Py.join sep l.
Proof. destruct l; [done | by intros _]. Qed.

Lemma join_app (sep : string) (l1 l2 : list string) :
  l1 ≠ [] → l2 ≠ [] →
  Py.join sep (l1 ++ l2) = Py.join sep l1 +:+ sep +:+ Py.join sep l2.
Proof.
  intros H1 H2. induction l1 as [|x l1 IH]; [done |].
  destruct l1 as [|y l1].
  - simpl app. by rewrite join_cons.
  - change ((x :: y :: l1) ++ l2) with (x :: ((y :: l1) ++ l2)).
    rewrite !join_cons by done. rewrite IH by done. by rewrite !append_assoc.
Qed.

(** Joining with a last empty line ends the text with the separator. *)
Lemma join_snoc_empty (sep : string) (l : list string) :
  l ≠ [] → Py.join sep (l ++ [""]) = Py.join sep l +:+ sep.
Proof. intros Hl. rewrite join_app by done. simpl. by rewrite append_nil_r. Qed.

(** [any_pattern_in] returns exactly when some pattern of the list occurs. *)
Lemma any_pattern_in_spec (patterns : list string) (s : string) :
  Plain.any_pattern_in patterns s = true ↔ ∃ p, p ∈ patterns ∧ Py.contains p s = true.
Proof.
  induction patterns as [|p ps IH]; simpl.
  - split; [done | intros (p & Hp & _); by apply elem_of_nil in Hp].
  - destruct (Py.contains p s) eqn:E.
    + split; [| done]. intros _. exists p. split; [left | done].
    + rewrite IH. split.
      * intros (q & Hq & Hc). exists q. split; [by right | done].
      * intros (q & Hq & Hc). apply elem_of_cons in Hq as [-> | Hq]; [congruence | eauto].
Qed.

(** ** The relationship loops of data-model-schema-graphql.py *)

Lemma fact_of_field_of node_name r : fact_of (field_of node_name r) = r.
Proof. by destruct r as [[??]?]. Qed.

Lemma key_of_fact f : key_of f = rel_key (fact_of f).1.1 (fact_of f).1.2 (fact_of f).2.
Proof. done. Qed.

Section PlainLoops.
Import Plain.
Lemma out_step_emit {A} (emit : CompiledField → A) node_name st r :
  out_step emit node_name (map_state emit st) r = map_state emit (out_step id node_name st r).
Proof.
  destruct r as [[rel_type target_node] direction]. unfold out_step, map_state; simpl.
  repeat case_decide; try done. simpl. by rewrite fmap_app.
Qed.

Lemma in_step_emit {A} (emit : CompiledField → A) node_name st r :
  in_step emit node_name (map_state emit st) r = map_state emit (in_step id node_name st r).
Proof.
  destruct r as [[rel_type target_node] direction]. unfold in_step, map_state; simpl.
  repeat case_decide; try done. simpl. by rewrite fmap_app.
Qed.

Lemma foldl_step_emit {A} (emit : CompiledField → A)
    (stepA : LoopState A → string * string * Direction → LoopState A)
    (stepF : LoopState CompiledField → string * string * Direction → LoopState CompiledField) :
  (∀ st r, stepA (map_state emit st) r = map_state emit (stepF st r)) →
  ∀ rels st, foldl stepA (map_state emit st) rels = map_state emit (foldl stepF st rels).
Proof.
  intros Hstep rels. induction rels as [|r rels IH]; intros st; simpl; [done |].
  by rewrite Hstep, IH.
Qed.

Lemma relationship_passes_emit {A} (emit : CompiledField → A) node_name rels :
  relationship_passes emit node_name rels = emit <$> relationship_fields node_name rels.
Proof.
  unfold relationship_fields, relationship_passes, out_pass.
  change (@init_state A) with (map_state emit (@init_state CompiledField)).
  rewrite (foldl_step_emit emit _ (out_step id node_name)) by apply out_step_emit.
  rewrite (foldl_step_emit emit _ (in_step id node_name)) by apply in_step_emit.
  done.
Qed.

Lemma out_step_result node_name r st :
  step_result out_checked node_name r st (out_step id node_name st r).
Proof.
  destruct r as [[rel_type target_node] direction]. unfold out_step.
  case_decide as Hd; [by apply step_skip |].
  case_decide as Hk; [by apply step_skip |].
  apply step_append; try done; unfold out_checked; simpl; by destruct direction.
Qed.

Lemma in_step_result node_name r st :
  step_result in_checked node_name r st (in_step id node_name st r).
Proof.
  destruct r as [[rel_type target_node] direction]. unfold in_step.
  case_decide as Hd; [by apply step_skip |].
  case_decide as Hk; [by apply step_skip |].
  case_decide as Hn.
  - apply step_skip; simpl; [done | done | set_solver].
  - apply step_append; try done; unfold in_checked; simpl;
      (split; [by destruct direction | done]).
Qed.

Lemma accepted_chain_weaken P keys keys' names fs :
  keys ⊆ keys' → accepted_chain P keys' names fs → accepted_chain P keys names fs.
Proof.
  revert keys keys' names. induction fs as [|f fs IH]; intros keys keys' names Hsub; simpl; [done |].
  intros (Hk & HP & Hc). split_and!; [set_solver | done |].
  eapply IH; [| exact Hc]. set_solver.
Qed.

Lemma accepted_chain_keys P keys names fs :
  accepted_chain P keys names fs →
  NoDup (key_of <$> fs) ∧ Forall (λ f, key_of f ∉ keys) fs.
Proof.
  revert keys names. induction fs as [|f fs IH]; intros keys names; simpl.
  - intros _. split; [constructor | constructor].
  - intros (Hk & HP & Hc). destruct (IH _ _ Hc) as [Hnd Hall]. split.
    + constructor; [| done]. intros Hin.
      apply list_elem_of_fmap in Hin as (g & Hg & Hgin).
      rewrite Forall_forall in Hall. specialize (Hall g Hgin). set_solver.
    + constructor; [done |]. eapply Forall_impl; [exact Hall |]. set_solver.
Qed.



(** A loop whose iterations are [step_result]s appends an accepted chain. *)
Lemma foldl_step_result P node_name
    (step : LoopState CompiledField → string * string * Direction → LoopState CompiledField) :
  (∀ st r, step_result P node_name r st (step st r)) →
  ∀ rels st, ∃ fs,
    appended (foldl step st rels) = appended st ++ fs ∧
    accepted_chain P (added_relationships st) (added_field_names st) fs ∧
    added_field_names (foldl step st rels)
      = added_field_names st ∪ list_to_set (field_name <$> fs) ∧
    added_relationships st ∪ list_to_set (key_of <$> fs)
      ⊆ added_relationships (foldl step st rels) ∧
    Forall (λ f, ∃ r, r ∈ rels ∧ f = field_of node_name r) fs.
Proof.
  intros Hstep rels. induction rels as [|r rels IH]; intros st; simpl.
  - exists []. rewrite app_nil_r. split_and!; [done | done | set_solver | set_solver | constructor].
  - destruct (IH (step st r)) as (fs & Happ & Hchain & Hnames & Hkeys & Hfrom).
    assert (Forall (λ f, ∃ r0, r0 ∈ r :: rels ∧ f = field_of node_name r0) fs) as Hfrom'.
    { eapply Forall_impl; [exact Hfrom |]. intros f (r0 & ? & ?). exists r0. split; [by right | done]. }
    destruct (Hstep st r) as [Ha Hn Hk | Hfresh HP Ha Hn Hk].
    + exists fs. rewrite Happ, Hnames, Ha, Hn. split_and!; try done.
      * rewrite Hn in Hchain. by eapply accepted_chain_weaken.
      * set_solver.
    + exists (field_of node_name r :: fs).
      rewrite Happ, Hnames, Ha, Hn. split_and!.
      * by rewrite <- app_assoc.
      * simpl. rewrite Hn, Hk in Hchain. done.
      * simpl. set_solver.
      * rewrite Hk in Hkeys. simpl. set_solver.
      * constructor; [| done]. exists r. split; [left | done].
Qed.

(** The two loops together: the OUT fields, then the IN fields. *)
Lemma relationship_fields_structure node_name rels :
  ∃ outs ins,
    relationship_fields node_name rels = outs ++ ins ∧
    outs = appended (out_pass id node_name rels) ∧
    accepted_chain out_checked ∅ ∅ outs ∧
    accepted_chain in_checked (list_to_set (key_of <$> outs))
      (list_to_set (field_name <$> outs)) ins ∧
    Forall (λ f, ∃ r, r ∈ rels ∧ f = field_of node_name r) (outs ++ ins).
Proof.
  unfold relationship_fields, relationship_passes, out_pass.
  destruct (foldl_step_result out_checked node_name (out_step id node_name)
              (λ st r, out_step_result node_name r st) rels init_state)
    as (outs & Ha1 & Hc1 & Hn1 & Hk1 & Hf1).
  destruct (foldl_step_result in_checked node_name (in_step id node_name)
              (λ st r, in_step_result node_name r st) rels
              (foldl (out_step id node_name) init_state rels))
    as (ins & Ha2 & Hc2 & Hn2 & Hk2 & Hf2).
  simpl in Ha1, Hc1, Hn1, Hk1.
  exists outs, ins. rewrite Ha2, Ha1. split_and!; try done.
  - rewrite Hn1 in Hc2. rewrite union_empty_l_L in Hc2.
    eapply accepted_chain_weaken; [| exact Hc2]. set_solver.
  - by apply Forall_app.
Qed.
End PlainLoops.

(** ** The relationship map *)

Lemma map_append_lookup (m : gmap string (list (string * string * Direction))) k t n :
  default [] (Plain.map_append m k t !! n)
  = default [] (m !! n) ++ (if decide (k = n) then [t] else []).
Proof.
  unfold Plain.map_append. case_decide as Hk.
  - subst. by rewrite lookup_insert_eq.
  - rewrite lookup_insert_ne by done. by rewrite app_nil_r.
Qed.

Lemma add_end_lookup rel_name (m : gmap string (list (string * string * Direction))) e n :
  default [] (Plain.add_end rel_name m e !! n)
  = default [] (m !! n) ++ facts_of_end rel_name n e.
Proof.
  unfold Plain.add_end, facts_of_end. rewrite !map_append_lookup. by rewrite <- app_assoc.
Qed.

Lemma foldl_add_end_lookup rel_name ends (m : gmap string (list (string * string * Direction))) n :
  default [] (foldl (Plain.add_end rel_name) m ends !! n)
  = default [] (m !! n) ++ flat_map (facts_of_end rel_name n) ends.
Proof.
  revert m. induction ends as [|e ends IH]; intros m; simpl.
  - by rewrite app_nil_r.
  - rewrite IH, add_end_lookup. by rewrite <- app_assoc.
Qed.

Lemma add_relationship_lookup (m : gmap string (list (string * string * Direction))) r n :
  default [] (Plain.add_relationship m r !! n)
  = default [] (m !! n) ++ facts_of_relationship n r.
Proof.
  destruct r as [rel_name [[[ends|]]|]]; simpl; rewrite ?app_nil_r; try done.
  apply foldl_add_end_lookup.
Qed.

(** The list filed under a node holds its facts in document order. *)
Lemma build_relationship_map_lookup relationships n :
  default [] (Plain.build_relationship_map relationships !! n) = facts_for n relationships.
Proof.
  unfold Plain.build_relationship_map, facts_for.
  change (flat_map (facts_of_relationship n) relationships)
    with (default [] ((∅ : gmap string (list (string * string * Direction))) !! n)
          ++ flat_map (facts_of_relationship n) relationships).
  generalize (∅ : gmap string (list (string * string * Direction))).
  induction relationships as [|r rels IH]; intros m; simpl.
  - by rewrite app_nil_r.
  - rewrite IH, add_relationship_lookup. by rewrite <- app_assoc.
Qed.

(** Every fact of a node comes from an endpoint pair it takes part in: as
    the source of an OUT fact, as the destination of an IN fact. *)
Lemma facts_for_origin relationships n rel_name t d :
  (rel_name, t, d) ∈ facts_for n relationships →
  ∃ ends e,
    (rel_name, Some {| Plain.Ends := Some ends |}) ∈ relationships ∧ e ∈ ends ∧
    ((d = OUT ∧ Plain.Src e = n ∧ Plain.Dst e = t) ∨
     (d = IN ∧ Plain.Dst e = n ∧ Plain.Src e = t)).
Proof.
  unfold facts_for. rewrite list_elem_of_In, in_flat_map.
  intros ([l [[[ends|]]|]] & Hr & Hin); simpl in Hin; try done.
  apply in_flat_map in Hin as (e & He & Hin). unfold facts_of_end in Hin.
  apply list_elem_of_In in Hr, He.
  apply in_app_or in Hin as [Hin | Hin]; case_decide; simpl in Hin;
    try done; destruct Hin as [Heq | []]; inversion Heq; subst;
    exists ends, e; split_and!; auto.
Qed.

(** ** The fields of a type block in data-model-schema-graphql.py *)

Lemma relationship_fields_from_facts node_name rels f :
  f ∈ Plain.relationship_fields node_name rels →
  fact_of f ∈ rels ∧ field_name f = relationship_field_name node_name (field_target f).
Proof.
  intros Hf. destruct (relationship_fields_structure node_name rels)
    as (outs & ins & Heq & _ & _ & _ & Hfrom).
  rewrite Heq in Hf. rewrite Forall_forall in Hfrom.
  destruct (Hfrom f Hf) as (r & Hr & ->). by rewrite fact_of_field_of.
Qed.

Lemma relationship_fields_keys_NoDup node_name rels :
  NoDup (key_of <$> Plain.relationship_fields node_name rels).
Proof.
  destruct (relationship_fields_structure node_name rels)
    as (outs & ins & -> & _ & Hout & Hin & _).
  apply accepted_chain_keys in Hout as [Hnd1 _].
  apply accepted_chain_keys in Hin as [Hnd2 Hfresh].
  rewrite fmap_app. apply NoDup_app. split_and!; [done | | done].
  intros k Hk1 Hk2. apply list_elem_of_fmap in Hk2 as (g & -> & Hg).
  rewrite Forall_forall in Hfresh. apply (Hfresh g Hg). by apply elem_of_list_to_set.
Qed.

(** C10. In data-model-schema-graphql.py repeated identical facts are
    suppressed: whatever list of facts is filed under a node, the fields
    written on its block have pairwise distinct (label, adjacent type,
    direction) triples, one line is written per field, and this holds for
    the list built from any relationship section. *)
Theorem repeated_facts_suppressed (node_name : string)
    (node_relationships : list (string * string * Direction))
    (relationships : list (string * option Plain.RelDef)) :
  NoDup (fact_of <$> Plain.relationship_fields node_name node_relationships) ∧
  Plain.relationship_passes relationship_line node_name node_relationships
    = relationship_line <$> Plain.relationship_fields node_name node_relationships ∧
  NoDup (fact_of <$> node_fields relationships node_name).
Proof.
  assert (∀ rels, NoDup (fact_of <$> Plain.relationship_fields node_name rels)) as Hnd.
  { intros rels. pose proof (relationship_fields_keys_NoDup node_name rels) as Hk.
    assert (key_of <$> Plain.relationship_fields node_name rels
            = (λ r : string * string * Direction, rel_key r.1.1 r.1.2 r.2)
                <$> (fact_of <$> Plain.relationship_fields node_name rels)) as Heq.
    { rewrite <- list_fmap_compose. done. }
    rewrite Heq in Hk. by apply NoDup_fmap_1 in Hk. }
  split_and!; [apply Hnd | apply relationship_passes_emit | apply Hnd].
Qed.

(** C1. In data-model-schema-graphql.py the OUT loop records the field
    names it writes but never tests them: with two labels between the same
    pair of types the source type gets two fields of the same name, while
    the IN loop of the destination type keeps the first only. *)
Theorem out_loop_writes_colliding_names :
  field_name <$> node_fields two_labels_one_pair "diagnosis" = ["samples"; "samples"] ∧
  field_label <$> node_fields two_labels_one_pair "diagnosis" = ["of_sample"; "from_sample"] ∧
  ¬ NoDup (field_name <$> node_fields two_labels_one_pair "diagnosis") ∧
  field_label <$> node_fields two_labels_one_pair "sample" = ["of_sample"].
Proof.
  assert (field_name <$> node_fields two_labels_one_pair "diagnosis" = ["samples"; "samples"])
    as Hnames by (vm_compute; reflexivity).
  split_and!; [done | vm_compute; reflexivity | | vm_compute; reflexivity].
  rewrite Hnames. intros Hnd. apply NoDup_cons in Hnd as [Hnotin _].
  apply Hnotin. left.
Qed.

Lemma memgraph_fields_from_facts node_label rels f :
  f ∈ Memgraph.relationship_fields node_label rels →
  fact_of f ∈ rels ∧ field_name f = relationship_field_name node_label (field_target f).
Proof.
  unfold Memgraph.relationship_fields, Memgraph.relationship_pass.
  assert (∀ st, f ∈ (foldl (Memgraph.step id node_label) st rels).2 →
            f ∈ st.2 ∨ ∃ r, r ∈ rels ∧ f = field_of node_label r) as Hfold.
  { induction rels as [|r rels IH]; intros st; simpl; [by left |].
    intros Hf. destruct (IH _ Hf) as [Hst | (r0 & Hr0 & ->)].
    - destruct st as [keys lines], r as [[rel_type target_label] direction].
      unfold Memgraph.step in Hst. case_decide; [by left |].
      simpl in Hst. apply elem_of_app in Hst as [? | Hnew]; [by left |].
      apply list_elem_of_singleton in Hnew as ->. right.
      exists (rel_type, target_label, direction). split; [left | done].
    - right. exists r0. split; [by right | done]. }
  intros Hf. destruct (Hfold _ Hf) as [Hnil | (r & Hr & ->)].
  - by apply elem_of_nil in Hnil.
  - by rewrite fact_of_field_of.
Qed.

Lemma field_name_ends_s node_name target_node :
  Py.endswith target_node "s" = true →
  relationship_field_name node_name target_node = target_node.
Proof. unfold relationship_field_name. by intros ->. Qed.

Lemma field_name_ends_y node_name target_node w :
  target_node = w +:+ "y" → target_node ≠ node_name →
  relationship_field_name node_name target_node = w +:+ "ies".
Proof.
  unfold relationship_field_name. intros -> Hne. apply String.eqb_neq in Hne.
  rewrite Hne, !endswith_snoc_1. simpl.
  change 1 with (String.length "y"). by rewrite drop_last_append.
Qed.

Lemma field_name_other node_name target_node :
  Py.endswith target_node "s" = false → Py.endswith target_node "y" = false →
  target_node ≠ node_name →
  relationship_field_name node_name target_node = target_node +:+ "s".
Proof.
  unfold relationship_field_name. intros -> -> Hne. apply String.eqb_neq in Hne.
  by rewrite Hne.
Qed.

Lemma field_name_self node_name : relationship_field_name node_name node_name = node_name.
Proof. unfold relationship_field_name. rewrite String.eqb_refl. by rewrite andb_false_r. Qed.

(** C5. The field name of a relationship: a target already ending in 's'
    is kept, a trailing 'y' becomes 'ies', any other target gets an 's', and
    the target of a self-relationship is kept unchanged; every field of
    data-model-schema-graphql.py and of memgraph-schema-graphql.py is named
    by this rule from its target. *)
Theorem field_name_pluralization_rule (node_name target_node : string) :
  (Py.endswith target_node "s" = true →
     relationship_field_name node_name target_node = target_node) ∧
  (∀ w, target_node = w +:+ "y" → target_node ≠ node_name →
     relationship_field_name node_name target_node = w +:+ "ies") ∧
  (Py.endswith target_node "s" = false → Py.endswith target_node "y" = false →
     target_node ≠ node_name →
     relationship_field_name node_name target_node = target_node +:+ "s") ∧
  relationship_field_name node_name node_name = node_name ∧
  (∀ rels f, f ∈ Plain.relationship_fields node_name rels →
     field_name f = relationship_field_name node_name (field_target f)) ∧
  (∀ rels f, f ∈ Memgraph.relationship_fields node_name rels →
     field_name f = relationship_field_name node_name (field_target f)).
Proof.
  split_and!.
  - apply field_name_ends_s.
  - apply field_name_ends_y.
  - apply field_name_other.
  - apply field_name_self.
  - intros rels f Hf. by apply relationship_fields_from_facts in Hf as [_ ?].
  - intros rels f Hf. by apply memgraph_fields_from_facts in Hf as [_ ?].
Qed.

(** ** The fields of build_relationship_fields *)

Lemma next_name_counted used base : counted_name base (Mdf.next_name used base).2.
Proof.
  unfold Mdf.next_name, counted_name. simpl. case_decide as Hidx; [by left |].
  right. exists (default 0 (used !! base) + 1). split; [lia | done].
Qed.

Lemma sorted_insert_Permutation {A} (le : A → A → bool) x l :
  Py.insert_sorted le x l ≡ₚ x :: l.
Proof.
  induction l as [|y l IH]; simpl; [done |].
  destruct (le x y); [done |]. rewrite IH. apply Permutation_swap.
Qed.

(** [sorted] rearranges its argument. *)
Lemma sorted_Permutation {A} (le : A → A → bool) l : Py.sorted le l ≡ₚ l.
Proof.
  induction l as [|x l IH]; simpl; [done |].
  by rewrite sorted_insert_Permutation, IH.
Qed.

Lemma mdf_in_fields_origin model node fname source :
  (fname, source, IN) ∈ Mdf.build_relationship_fields model node →
  ∃ edge, edge ∈ Mdf.edges model ∧ Mdf.dst edge = Mdf.handle node ∧
          Mdf.src edge = source ∧ counted_name (in_base node edge) fname.
Proof.
  unfold Mdf.build_relationship_fields. rewrite sorted_Permutation.
  unfold Mdf.unsorted_relationship_fields.
  assert (∀ es st, (fname, source, IN) ∈ (foldl (Mdf.out_step node) st es).1 →
            (fname, source, IN) ∈ st.1) as Hout.
  { induction es as [|e es IH]; intros [rels used]; simpl; [done |].
    intros Hin. apply IH in Hin. unfold Mdf.out_step in Hin.
    destruct (String.eqb (Mdf.src e) (Mdf.handle node)); [| done].
    simpl in Hin. apply elem_of_app in Hin as [? | Hnew]; [done |].
    apply list_elem_of_singleton in Hnew. discriminate. }
  assert (∀ es st, (fname, source, IN) ∈ (foldl (Mdf.in_step node) st es).1 →
            (fname, source, IN) ∈ st.1 ∨
            ∃ edge, edge ∈ es ∧ Mdf.dst edge = Mdf.handle node ∧
                    Mdf.src edge = source ∧ counted_name (in_base node edge) fname) as Hin.
  { induction es as [|e es IH]; intros [rels used]; simpl; [by left |].
    intros H. destruct (IH _ H) as [Hst | (edge & ? & ? & ? & ?)].
    - unfold Mdf.in_step in Hst.
      destruct (String.eqb_spec (Mdf.dst e) (Mdf.handle node)) as [Hdst |]; [| by left].
      simpl in Hst. apply elem_of_app in Hst as [? | Hnew]; [by left |].
      apply list_elem_of_singleton in Hnew. inversion Hnew; subst. right.
      exists e. split_and!; [left | done | done | apply next_name_counted].
    - right. exists edge. split_and!; [by right | done..]. }
  intros H. destruct (Hin _ _ H) as [Hst | ?]; [| done].
  apply Hout in Hst. by apply elem_of_nil in Hst.
Qed.

(** C3. In data-model-schema-graphql.py every IN field of a type is named
    after the adjacent type, the source of the relationship, by the rule that
    names OUT fields after their destination; in
    data-model-schema-graphql-mdf.py every IN field is named after the type
    itself: its handle singularized and lowercased, then the lowercased
    label, with an occurrence counter on repeats. *)
Theorem in_field_names :
  (∀ relationships node_name f,
     f ∈ node_fields relationships node_name → field_direction f = IN →
     field_name f = relationship_field_name node_name (field_target f) ∧
     ∃ ends e,
       (field_label f, Some {| Plain.Ends := Some ends |}) ∈ relationships ∧ e ∈ ends ∧
       Plain.Dst e = node_name ∧ Plain.Src e = field_target f) ∧
  (∀ relationships node_name f,
     f ∈ node_fields relationships node_name → field_direction f = OUT →
     field_name f = relationship_field_name node_name (field_target f) ∧
     ∃ ends e,
       (field_label f, Some {| Plain.Ends := Some ends |}) ∈ relationships ∧ e ∈ ends ∧
       Plain.Src e = node_name ∧ Plain.Dst e = field_target f) ∧
  (∀ model node fname source,
     (fname, source, IN) ∈ Mdf.build_relationship_fields model node →
     ∃ edge, edge ∈ Mdf.edges model ∧ Mdf.dst edge = Mdf.handle node ∧
             Mdf.src edge = source ∧ counted_name (in_base node edge) fname).
Proof.
  assert (∀ relationships node_name f d,
            f ∈ node_fields relationships node_name → field_direction f = d →
            field_name f = relationship_field_name node_name (field_target f) ∧
            ∃ ends e,
              (field_label f, Some {| Plain.Ends := Some ends |}) ∈ relationships ∧ e ∈ ends ∧
              ((d = OUT ∧ Plain.Src e = node_name ∧ Plain.Dst e = field_target f) ∨
               (d = IN ∧ Plain.Dst e = node_name ∧ Plain.Src e = field_target f))) as Hboth.
  { intros relationships node_name f d Hf Hd. unfold node_fields in Hf.
    apply relationship_fields_from_facts in Hf as [Hfact Hname]. split; [done |].
    rewrite build_relationship_map_lookup in Hfact. unfold fact_of in Hfact.
    rewrite Hd in Hfact. by apply facts_for_origin in Hfact. }
  split_and!.
  - intros relationships node_name f Hf Hd.
    destruct (Hboth _ _ _ _ Hf Hd) as [Hname (ends & e & Hr & He & Hcase)].
    split; [done |]. exists ends, e.
    destruct Hcase as [(? & _) | (_ & ? & ?)]; [done | by split_and!].
  - intros relationships node_name f Hf Hd.
    destruct (Hboth _ _ _ _ Hf Hd) as [Hname (ends & e & Hr & He & Hcase)].
    split; [done |]. exists ends, e.
    destruct Hcase as [(_ & ? & ?) | (? & _)]; [by split_and! | done].
  - apply mdf_in_fields_origin.
Qed.

(** C2. For the single fact with label of_sample from diagnosis to sample,
    data-model-schema-graphql.py gives the source type, diagnosis, one OUT
    field named "samples" to sample, and the destination type, sample, one IN
    field named "diagnosis" from diagnosis; both annotations carry the label
    as written, of_sample. *)
Theorem single_fact_fields :
  let relationships := single_fact "of_sample" "diagnosis" "sample" in
  let relationship_map := Plain.build_relationship_map relationships in
  node_fields relationships "diagnosis"
  = [ {| field_name := "samples"; field_target := "sample";
         field_label := "of_sample"; field_direction := OUT |} ] ∧
  node_fields relationships "sample"
  = [ {| field_name := "diagnosis"; field_target := "diagnosis";
         field_label := "of_sample"; field_direction := IN |} ] ∧
  Plain.generate_node_type "diagnosis" {| Plain.Props := None |} relationship_map ∅
  = "type diagnosis {" +:+ Py.nl
    +:+ "  samples: [sample!]! @relationship(type: " +:+ Py.dq +:+ "of_sample" +:+ Py.dq
    +:+ ", direction: OUT)" +:+ Py.nl
    +:+ "}" +:+ Py.nl ∧
  Plain.generate_node_type "sample" {| Plain.Props := None |} relationship_map ∅
  = "type sample {" +:+ Py.nl
    +:+ "  diagnosis: [diagnosis!]! @relationship(type: " +:+ Py.dq +:+ "of_sample" +:+ Py.dq
    +:+ ", direction: IN)" +:+ Py.nl
    +:+ "}" +:+ Py.nl.
Proof. split_and!; vm_compute; reflexivity. Qed.

(** ** Attribute types inferred from names *)

Lemma id_like_spec prop_name :
  Py.endswith prop_name "_id" || String.eqb prop_name "id" = true ↔ id_like prop_name.
Proof. unfold id_like. by rewrite orb_true_iff, String.eqb_eq. Qed.

(** C6. Without a [Type] in its definition, the scalar of an attribute is
    inferred from its name by three classes in order: names ending in '_id'
    or equal to 'id' are String; names whose lowercased form contains a
    numeric pattern are Int; names whose lowercased form contains, at any
    position, one of 'indicator', '_flag', 'is_', 'has_' are Boolean; all
    others are String. *)
Theorem infer_scalar_from_name (prop_name : string) :
  (id_like prop_name → Plain.determine_graphql_type prop_name None = "String") ∧
  (¬ id_like prop_name → numeric_like prop_name →
     Plain.determine_graphql_type prop_name None = "Int") ∧
  (¬ id_like prop_name → ¬ numeric_like prop_name → boolean_like prop_name →
     Plain.determine_graphql_type prop_name None = "Boolean") ∧
  (¬ id_like prop_name → ¬ numeric_like prop_name → ¬ boolean_like prop_name →
     Plain.determine_graphql_type prop_name None = "String") ∧
  Plain.determine_graphql_type prop_name (Some Plain.empty_def)
  = Plain.determine_graphql_type prop_name None.
Proof.
  pose proof (id_like_spec prop_name) as Hid.
  pose proof (any_pattern_in_spec Plain.numeric_patterns (Py.lower prop_name)) as Hnum.
  pose proof (any_pattern_in_spec Plain.boolean_patterns (Py.lower prop_name)) as Hbool.
  fold (numeric_like prop_name) in Hnum. fold (boolean_like prop_name) in Hbool.
  unfold Plain.determine_graphql_type. simpl Plain.Type_. cbv iota.
  destruct (Py.endswith prop_name "_id" || String.eqb prop_name "id").
  { split_and!; [done | | | | done]; intros Hn; exfalso; by apply Hn, Hid. }
  assert (¬ id_like prop_name) as Hnid by (by intros H%Hid).
  cbv zeta. destruct (Plain.any_pattern_in Plain.numeric_patterns (Py.lower prop_name)).
  { split_and!; [done | done | | | done]; intros _ Hn; exfalso; by apply Hn, Hnum. }
  assert (¬ numeric_like prop_name) as Hnnum by (by intros H%Hnum).
  destruct (Plain.any_pattern_in Plain.boolean_patterns (Py.lower prop_name)).
  { split_and!; [done | done | done | | done]. intros _ _ Hn; exfalso; by apply Hn, Hbool. }
  split_and!; [done | done | | done | done]. by intros _ _ H%Hbool.
Qed.

(** ** Pluralization and singularization *)

Lemma append_snoc_ne (p : string) (c : ascii) (t : string) :
  t ≠ String c "" → p +:+ t ≠ p +:+ String c "".
Proof. intros Hne Heq. by apply (inj (String.app p)) in Heq. Qed.

(** C7. For a word that does not end in 's' (and is not the type the field
    is written on), singularizing the pluralized word gives the word back
    exactly when the word does not end in "ie" or "se". *)
Theorem singularize_pluralize_roundtrip (node_name w : string) :
  w ≠ node_name → Py.endswith w "s" = false →
  (Mdf.singularize (relationship_field_name node_name w) = w
   ↔ Py.endswith w "ie" = false ∧ Py.endswith w "se" = false).
Proof.
  intros Hne Hs.
  destruct (Py.endswith w "y") eqn:Ey.
  - apply endswith_spec in Ey as [p ->]. rewrite (field_name_ends_y _ _ p) by done.
    change "ie" with ("i" +:+ "e"). change "se" with ("s" +:+ "e").
    rewrite !endswith_snoc. simpl.
    unfold Mdf.singularize. rewrite (endswith_append p "ies").
    change 3 with (String.length "ies"). by rewrite drop_last_append.
  - rewrite field_name_other by done. unfold Mdf.singularize.
    change "ies" with ("ie" +:+ "s"). change "ses" with ("se" +:+ "s").
    change "ss" with ("s" +:+ "s").
    rewrite !endswith_snoc, endswith_snoc_1, Hs. simpl.
    destruct (Py.endswith w "ie") eqn:Eie.
    { apply endswith_spec in Eie as [p ->]. split; [| by intros [? _]].
      rewrite append_assoc. change ("ie" +:+ "s") with "ies".
      change 3 with (String.length "ies"). rewrite drop_last_append.
      intros Heq. by apply (inj (String.app p)) in Heq. }
    destruct (Py.endswith w "se") eqn:Ese.
    { apply endswith_spec in Ese as [p ->]. split; [| by intros [_ ?]].
      rewrite append_assoc. change ("se" +:+ "s") with ("s" +:+ "es").
      rewrite <- append_assoc. change 2 with (String.length "es").
      rewrite drop_last_append.
      intros Heq. by apply (inj (String.app p)) in Heq. }
    change 1 with (String.length "s"). by rewrite drop_last_append.
Qed.

(** ** Sorting *)

Section SortedFacts.
Context {A : Type} (le : A → A → bool).
Hypothesis le_total : ∀ x y, le x y = false → le y x = true.
Hypothesis le_trans : ∀ x y z, le x y = true → le y z = true → le x z = true.

Lemma insert_sorted_StronglySorted x l :
  StronglySorted (λ a b, le a b = true) l →
  StronglySorted (λ a b, le a b = true) (Py.insert_sorted le x l).
Proof.
  induction 1 as [|y l Hl IH Hy]; simpl.
  - repeat constructor.
  - destruct (le x y) eqn:Exy.
    + constructor; [by constructor |].
      constructor; [done |]. eapply Forall_impl; [exact Hy |]. intros z Hz. by eapply le_trans.
    + constructor; [done |].
      rewrite sorted_insert_Permutation. constructor; [by apply le_total | done].
Qed.

Lemma sorted_StronglySorted l : StronglySorted (λ a b, le a b = true) (Py.sorted le l).
Proof.
  induction l as [|x l IH]; simpl; [constructor | by apply insert_sorted_StronglySorted].
Qed.
End SortedFacts.

Lemma leb_total_false (s1 s2 : string) : String.leb s1 s2 = false → String.leb s2 s1 = true.
Proof. intros H. destruct (String.leb_total s1 s2) as [H' | H']; [congruence | done]. Qed.

Lemma leb_trans (s1 s2 s3 : string) :
  String.leb s1 s2 = true → String.leb s2 s3 = true → String.leb s1 s3 = true.
Proof.
  intros H1%Is_true_true H2%Is_true_true. apply Is_true_true.
  exact (transitivity (R := String.le) H1 H2).
Qed.

(** Sorting on a string key. *)
Lemma sorted_by_key {A} (key : A → string) (l : list A) :
  let le := λ a b, String.leb (key a) (key b) in
  Py.sorted le l ≡ₚ l ∧
  StronglySorted (λ a b, String.leb (key a) (key b) = true) (Py.sorted le l).
Proof.
  split; [apply sorted_Permutation |].
  apply (sorted_StronglySorted (λ a b, String.leb (key a) (key b))).
  - intros x y. apply leb_total_false.
  - intros x y z. apply leb_trans.
Qed.

(** With distinct keys, the sorted list does not depend on the order of the
    input. *)
Lemma sorted_by_key_unique {A} (key : A → string) (l l' : list A) :
  NoDup (key <$> l) → l' ≡ₚ l →
  Py.sorted (λ a b, String.leb (key a) (key b)) l'
  = Py.sorted (λ a b, String.leb (key a) (key b)) l.
Proof.
  intros Hnd Hperm.
  destruct (sorted_by_key key l) as [Hp Hs]. destruct (sorted_by_key key l') as [Hp' Hs'].
  simpl in *.
  apply (StronglySorted_unique_strong (λ a b, String.leb (key a) (key b) = true));
    [| done | done | by rewrite Hp, Hp'].
  intros x1 x2 Hx1 Hx2 H12 H21.
  rewrite Hp', Hperm in Hx1. rewrite Hp in Hx2.
  assert (key x1 = key x2) as Hkey by (by apply String.leb_antisym).
  apply list_elem_of_lookup in Hx1 as [i Hi]. apply list_elem_of_lookup in Hx2 as [j Hj].
  assert (i = j) as ->.
  { eapply NoDup_lookup; [exact Hnd | |]; rewrite list_lookup_fmap.
    - by rewrite Hi.
    - rewrite Hj. simpl. by rewrite Hkey. }
  congruence.
Qed.

(** ** The type blocks and the documents *)

Lemma join_type_lines_brace model node :
  ∃ body, Mdf.generate_type_sdl model node = body +:+ "}".
Proof.
  unfold Mdf.generate_type_sdl, Mdf.type_lines.
  rewrite join_app; [| by destruct (Mdf.props node) | done].
  eexists. rewrite <- append_assoc. reflexivity.
Qed.

Lemma mdf_preamble_brace model : ∃ body, mdf_preamble model = body +:+ "}".
Proof.
  unfold mdf_preamble, mdf_preamble_lines.
  change [ "#graphql"; ""; "# Auto-generated from MDF using bento_mdf";
           "# Model Handle: " +:+ Mdf.model_handle model; "";
           "type FieldCount {"; "  field: String!"; "  count: Int!"; "}" ]
    with ([ "#graphql"; ""; "# Auto-generated from MDF using bento_mdf";
            "# Model Handle: " +:+ Mdf.model_handle model; "";
            "type FieldCount {"; "  field: String!"; "  count: Int!" ] ++ ["}"]).
  rewrite join_app by done. eexists. rewrite <- append_assoc. reflexivity.
Qed.

Lemma mdf_blocks_brace model ns s :
  (∃ body, s = body +:+ "}") → ∃ body, s +:+ mdf_blocks model ns = body +:+ "}".
Proof.
  revert s. induction ns as [|n ns IH]; intros s Hs; simpl.
  - by rewrite append_nil_r.
  - rewrite <- !append_assoc. apply IH.
    destruct (join_type_lines_brace model n) as [body ->].
    eexists. rewrite <- !append_assoc. reflexivity.
Qed.

Lemma join_header_blocks model ns (lines : list string) :
  lines ≠ [] →
  Py.join Py.nl ((lines ++ [""])
                 ++ flat_map (λ node, [Mdf.generate_type_sdl model node; ""]) ns)
  = Py.join Py.nl lines +:+ mdf_blocks model ns +:+ Py.nl.
Proof.
  revert lines. induction ns as [|n ns IH]; intros lines Hne.
  - simpl. rewrite app_nil_r, append_nil_l. by apply join_snoc_empty.
  - assert (∀ rest : list string,
              (lines ++ [""]) ++ [Mdf.generate_type_sdl model n; ""] ++ rest
              = ((lines ++ [""; Mdf.generate_type_sdl model n]) ++ [""]) ++ rest) as Hshift.
    { intros rest. by rewrite <- !app_assoc. }
    change (flat_map (λ node, [Mdf.generate_type_sdl model node; ""]) (n :: ns))
      with ([Mdf.generate_type_sdl model n; ""]
            ++ flat_map (λ node, [Mdf.generate_type_sdl model node; ""]) ns).
    rewrite Hshift, IH by (by destruct lines).
    rewrite (join_app Py.nl lines) by done.
    simpl mdf_blocks. rewrite !append_assoc. reflexivity.
Qed.

(** The document of data-model-schema-graphql.py. *)

Lemma plain_block_brace model_data props_data node :
  ∃ body, plain_block model_data props_data node = body +:+ "}" +:+ Py.nl.
Proof.
  unfold plain_block, Plain.generate_node_type.
  rewrite join_snoc_empty by (by destruct (Plain.Props node.2)).
  rewrite join_app; [| by destruct (Plain.Props node.2) | done].
  eexists. rewrite <- !append_assoc. reflexivity.
Qed.

Lemma plain_blocks_brace model_data props_data nodes s :
  (∃ body, s = body +:+ "}" +:+ Py.nl) →
  ∃ body, s +:+ plain_blocks model_data props_data nodes = body +:+ "}" +:+ Py.nl.
Proof.
  revert s. induction nodes as [|node nodes IH]; intros s Hs; simpl.
  - by rewrite append_nil_r.
  - rewrite <- !append_assoc. apply IH.
    destruct (plain_block_brace model_data props_data node) as [body ->].
    eexists. rewrite <- !append_assoc. reflexivity.
Qed.

Lemma join_lines_blocks model_data props_data nodes (lines : list string) :
  lines ≠ [] →
  Py.join Py.nl (lines ++ map (plain_block model_data props_data) nodes)
  = Py.join Py.nl lines +:+ plain_blocks model_data props_data nodes.
Proof.
  revert lines. induction nodes as [|node nodes IH]; intros lines Hne.
  - simpl. by rewrite app_nil_r, append_nil_r.
  - change (map (plain_block model_data props_data) (node :: nodes))
      with ([plain_block model_data props_data node]
            ++ map (plain_block model_data props_data) nodes).
    rewrite app_assoc, IH by (by destruct lines).
    rewrite join_app by done. simpl plain_blocks. simpl Py.join at 2.
    by rewrite !append_assoc.
Qed.

Lemma process_ccdi_model_blocks model_data props_data :
  Plain.process_ccdi_model model_data props_data
  = Py.join Py.nl (Plain.boilerplate
                   ++ map (plain_block model_data props_data) (Plain.Nodes model_data)).
Proof.
  unfold Plain.process_ccdi_model. do 2 f_equal.
  apply map_ext. by intros [node_name node_def].
Qed.

(** C8. The document of data-model-schema-graphql-mdf.py is the preamble
    (the marker comment, two comment lines naming the generator and the
    model, and the FieldCount type), then one type block per node of the
    model, each after one blank line, in increasing order of the node
    handles, then one newline; the character before that newline is the
    closing brace of the last block, so the document ends with exactly one
    newline. The document printed by data-model-schema-graphql.py is its
    preamble (the marker comment, a comment line and the FieldCount type),
    a blank line, and one type block per node in the order of the model
    file, each ending with a newline, then one more newline: it ends with
    two newlines. *)
Theorem generate_schema_layout (model : Mdf.Model)
    (model_data : Plain.ModelData) (props_data : Plain.PropsData) :
  let ns := Py.sorted Mdf.node_le (Mdf.nodes model) in
  ns ≡ₚ Mdf.nodes model ∧
  StronglySorted (λ n1 n2, String.leb (Mdf.handle n1) (Mdf.handle n2) = true) ns ∧
  Mdf.generate_schema model = mdf_preamble model +:+ mdf_blocks model ns +:+ Py.nl ∧
  (∃ body, Mdf.generate_schema model = body +:+ "}" +:+ Py.nl) ∧
  Plain.main_stdout model_data props_data
  = plain_preamble +:+ Py.nl
    +:+ plain_blocks model_data props_data (Plain.Nodes model_data) +:+ Py.nl ∧
  (∃ body, Plain.main_stdout model_data props_data = body +:+ "}" +:+ Py.nl +:+ Py.nl).
Proof.
  destruct (sorted_by_key Mdf.handle (Mdf.nodes model)) as [Hperm Hsorted].
  assert (∃ body, mdf_preamble model +:+ mdf_blocks model (Py.sorted Mdf.node_le (Mdf.nodes model))
                  = body +:+ "}") as [body Hbody].
  { apply mdf_blocks_brace, mdf_preamble_brace. }
  assert (Mdf.generate_schema model
          = mdf_preamble model +:+ mdf_blocks model (Py.sorted Mdf.node_le (Mdf.nodes model))
              +:+ Py.nl) as Hdoc.
  { unfold Mdf.generate_schema.
    change (Mdf.header model) with (mdf_preamble_lines model ++ [""]).
    rewrite join_header_blocks by done. fold (mdf_preamble model).
    rewrite <- append_assoc, Hbody, append_assoc.
    rewrite rstrip_append by (vm_compute; discriminate).
    by rewrite <- append_assoc. }
  assert (Plain.main_stdout model_data props_data
          = (plain_preamble +:+ Py.nl
             +:+ plain_blocks model_data props_data (Plain.Nodes model_data)) +:+ Py.nl)
    as Hplain.
  { unfold Plain.main_stdout. rewrite process_ccdi_model_blocks.
    rewrite join_lines_blocks by done.
    change Plain.boilerplate with (plain_preamble_lines ++ [""]).
    rewrite join_snoc_empty by done. fold plain_preamble. by rewrite !append_assoc. }
  split_and!; [exact Hperm | exact Hsorted | exact Hdoc | | |].
  - exists body. by rewrite Hdoc, <- append_assoc, Hbody, append_assoc.
  - by rewrite Hplain, !append_assoc.
  - destruct (plain_blocks_brace model_data props_data (Plain.Nodes model_data)
                (plain_preamble +:+ Py.nl)) as [body' Hbody'].
    { exists (Py.join Py.nl [ "#graphql"; ""; "# Type for field count results";
                              "type FieldCount {"; "  field: String!"; "  count: Int!" ]
              +:+ Py.nl).
      vm_compute. reflexivity. }
    exists body'. rewrite Hplain. rewrite <- (append_assoc plain_preamble), Hbody'.
    by rewrite !append_assoc.
Qed.

(** The label recovered by [_relationship_type_name] is the last segment of
    the field name: a label with an underscore in it is not found again. *)
Example mdf_label_recovery :
  let model := mdf_single_fact "of_sample" "diagnosis" "sample" in
  Mdf.build_relationship_fields model (mdf_node "diagnosis")
  = [("sample_of_sample", "sample", OUT)] ∧
  Mdf._relationship_type_name model "sample_of_sample" "sample" OUT = "SAMPLE".
Proof. split; vm_compute; reflexivity. Qed.

(** * Further properties of the generators *)

(** ** The relationship map of data-model-schema-graphql.py *)

Lemma map_append_nonempty (m : gmap string (list (string * string * Direction))) k t :
  (∀ n l, m !! n = Some l → l ≠ []) →
  ∀ n l, Plain.map_append m k t !! n = Some l → l ≠ [].
Proof.
  intros Hm n l. unfold Plain.map_append.
  destruct (decide (k = n)) as [-> | Hne].
  - rewrite lookup_insert_eq. intros [= <-]. by destruct (default [] (m !! n)).
  - rewrite lookup_insert_ne by done. apply Hm.
Qed.

Lemma build_relationship_map_nonempty relationships n l :
  Plain.build_relationship_map relationships !! n = Some l → l ≠ [].
Proof.
  unfold Plain.build_relationship_map. revert n l.
  assert (∀ n l, (∅ : gmap string (list (string * string * Direction))) !! n = Some l → l ≠ [])
    as Hempty by (intros n l; by rewrite lookup_empty).
  revert Hempty. generalize (∅ : gmap string (list (string * string * Direction))).
  induction relationships as [|r rels IH]; intros m Hm; simpl; [done |].
  apply IH. destruct r as [rel_name [[[ends|]]|]]; simpl; try done.
  clear IH. revert m Hm. induction ends as [|e ends IHe]; intros m Hm; simpl; [done |].
  apply IHe. unfold Plain.add_end. by do 2 apply map_append_nonempty.
Qed.

Lemma facts_for_endpoint relationships n rel_name ends e :
  (rel_name, Some {| Plain.Ends := Some ends |}) ∈ relationships → e ∈ ends →
  Plain.Src e = n ∨ Plain.Dst e = n → facts_for n relationships ≠ [].
Proof.
  intros Hr He Hn Hnil.
  assert (∀ r, r ∈ facts_for n relationships → False) as Hnone
    by (intros r; rewrite Hnil; apply not_elem_of_nil).
  unfold facts_for in Hnone.
  assert (∀ r, r ∈ facts_of_end rel_name n e → False) as Hend.
  { intros r Hin. apply (Hnone r). rewrite list_elem_of_In, in_flat_map.
    exists (rel_name, Some {| Plain.Ends := Some ends |}).
    split; [by apply list_elem_of_In |]. simpl. rewrite in_flat_map.
    exists e. split; by apply list_elem_of_In. }
  unfold facts_of_end in Hend. destruct Hn as [Hn | Hn].
  - apply (Hend (rel_name, Plain.Dst e, OUT)). rewrite decide_True by done.
    apply elem_of_app. left. left.
  - apply (Hend (rel_name, Plain.Src e, IN)). rewrite (decide_True (P := Plain.Dst e = n)) by done.
    apply elem_of_app. right. left.
Qed.

(** A node has an entry in the relationship map exactly when it is the
    source or the destination of an endpoint pair; the entry is never empty
    and holds the node's facts in document order: for each pair, the OUT fact
    to the destination if the node is its source, then the IN fact from the
    source if the node is its destination. *)
Theorem relationship_map_entries (relationships : list (string * option Plain.RelDef))
    (n : string) :
  (is_Some (Plain.build_relationship_map relationships !! n) ↔
   ∃ rel_name ends e,
     (rel_name, Some {| Plain.Ends := Some ends |}) ∈ relationships ∧ e ∈ ends ∧
     (Plain.Src e = n ∨ Plain.Dst e = n)) ∧
  (∀ l, Plain.build_relationship_map relationships !! n = Some l →
        l ≠ [] ∧ l = facts_for n relationships) ∧
  (Plain.build_relationship_map relationships !! n = None → facts_for n relationships = []).
Proof.
  pose proof (build_relationship_map_lookup relationships n) as Hlook.
  split_and!.
  - split.
    + intros [l Hl]. pose proof (build_relationship_map_nonempty _ _ _ Hl) as Hne.
      rewrite Hl in Hlook. simpl in Hlook. subst l.
      destruct (facts_for n relationships) as [|[[rel_name t] d] rest] eqn:E; [done |].
      assert ((rel_name, t, d) ∈ facts_for n relationships) as Hin by (rewrite E; left).
      apply facts_for_origin in Hin as (ends & e & Hr & He & Hcase).
      exists rel_name, ends, e. split_and!; [done | done |].
      destruct Hcase as [(_ & ? & _) | (_ & ? & _)]; auto.
    + intros (rel_name & ends & e & Hr & He & Hn).
      pose proof (facts_for_endpoint _ _ _ _ _ Hr He Hn) as Hne.
      destruct (Plain.build_relationship_map relationships !! n); [by eexists |].
      simpl in Hlook. congruence.
  - intros l Hl. split; [by eapply build_relationship_map_nonempty |].
    rewrite Hl in Hlook. done.
  - intros Hnone. rewrite Hnone in Hlook. done.
Qed.

(** ** The scalars of attribute lines *)

Lemma dict_get_value (d : list (string * string)) (k dflt : string) :
  Py.dict_get d k dflt = dflt ∨ Py.dict_get d k dflt ∈ d.*2.
Proof.
  induction d as [|[k' v] d IH]; simpl; [by left |].
  destruct (String.eqb k' k); [right; left |].
  destruct IH as [-> | IH]; [by left | right; by right].
Qed.

Lemma dict_get_missing (d : list (string * string)) (k dflt : string) :
  k ∉ d.*1 → Py.dict_get d k dflt = dflt.
Proof.
  induction d as [|[k' v] d IH]; simpl; [done |].
  intros Hk. apply not_elem_of_cons in Hk as [Hne Hk].
  destruct (String.eqb_spec k' k); [congruence | by apply IH].
Qed.

Lemma dict_get_scalar (d : list (string * string)) (k : string) :
  Forall (λ v, v ∈ scalars) d.*2 → Py.dict_get d k "String" ∈ scalars.
Proof.
  intros Hd. destruct (dict_get_value d k "String") as [-> | Hin]; [left |].
  rewrite Forall_forall in Hd. by apply Hd.
Qed.

Lemma type_mapping_scalars : Forall (λ v, v ∈ scalars) Plain.type_mapping.*2.
Proof. unfold scalars. simpl. repeat constructor. Qed.

Lemma scalar_map_scalars : Forall (λ v, v ∈ scalars) Mdf.scalar_map.*2.
Proof. unfold scalars. simpl. repeat constructor. Qed.

Lemma determine_graphql_type_in_scalars prop_name prop_def :
  Plain.determine_graphql_type prop_name prop_def ∈ scalars.
Proof.
  unfold Plain.determine_graphql_type.
  destruct prop_def as [[[ty|]]|].
  - apply dict_get_scalar, type_mapping_scalars.
  - repeat case_match; unfold scalars; set_solver.
  - repeat case_match; unfold scalars; set_solver.
Qed.

(** determine_graphql_type always answers one of the four scalars String,
    Int, Float, Boolean, whatever the name and the definition; a [Type] whose
    lowercased text is not a key of the table gives String. *)
Theorem determine_graphql_type_scalar (prop_name : string) (prop_def : option Plain.PropDef) :
  Plain.determine_graphql_type prop_name prop_def ∈ scalars ∧
  (∀ ty, Py.lower ty ∉ Plain.type_mapping.*1 →
     Plain.determine_graphql_type prop_name (Some {| Plain.Type_ := Some ty |}) = "String").
Proof.
  split; [apply determine_graphql_type_in_scalars |].
  intros ty Hty. unfold Plain.determine_graphql_type. by apply dict_get_missing.
Qed.

Lemma map_value_domain_shape (prop : Mdf.Property) :
  (∃ elem, elem ∈ scalars ∧ Mdf.map_value_domain_to_graphql prop = "[" +:+ elem +:+ "]") ∨
  Mdf.map_value_domain_to_graphql prop ∈ scalars.
Proof.
  unfold Mdf.map_value_domain_to_graphql.
  destruct (String.eqb (Py.lower (default "" (Mdf.value_domain prop))) "list").
  - left. destruct (String.eqb (Py.lower (default "" (Mdf.item_domain prop))) "").
    + exists "String". split; [left | done].
    + eexists. split; [| done]. apply dict_get_scalar, scalar_map_scalars.
  - right. apply dict_get_scalar, scalar_map_scalars.
Qed.

(** The value domains of the metadata-driven generator: a domain that
    lowercases to "list" gives a list of one of the four scalars, [String]
    when the item domain is absent; every other domain gives one of the four
    scalars, String when the domain is absent. *)
Theorem map_value_domain_classes (prop : Mdf.Property) :
  let domain := Py.lower (default "" (Mdf.value_domain prop)) in
  (domain = "list" →
     ∃ elem, elem ∈ scalars ∧ Mdf.map_value_domain_to_graphql prop = "[" +:+ elem +:+ "]") ∧
  (domain = "list" → Mdf.item_domain prop = None →
     Mdf.map_value_domain_to_graphql prop = "[String]") ∧
  (domain ≠ "list" → Mdf.map_value_domain_to_graphql prop ∈ scalars) ∧
  (Mdf.value_domain prop = None → Mdf.map_value_domain_to_graphql prop = "String").
Proof.
  unfold Mdf.map_value_domain_to_graphql. split_and!.
  - intros ->. rewrite String.eqb_refl.
    destruct (String.eqb (Py.lower (default "" (Mdf.item_domain prop))) "").
    + exists "String". split; [left | done].
    + eexists. split; [| done]. apply dict_get_scalar, scalar_map_scalars.
  - intros -> ->. done.
  - intros Hne. apply String.eqb_neq in Hne. rewrite Hne.
    apply dict_get_scalar, scalar_map_scalars.
  - intros ->. done.
Qed.

Lemma endswith_last_char (p t : string) (c d : ascii) :
  c ≠ d → Py.endswith (p +:+ t +:+ String c "") (String d "") = false.
Proof.
  intros Hne. rewrite <- append_assoc, endswith_snoc_1. by apply bool_decide_eq_false.
Qed.

Lemma endswith_bang_scalar (p ty : string) :
  ty ∈ scalars → Py.endswith (p +:+ ty) "!" = false.
Proof.
  unfold scalars. intros Hty.
  repeat (apply elem_of_cons in Hty as [-> | Hty]); [| | | | by apply elem_of_nil in Hty].
  - by apply (endswith_last_char p "Strin" "g").
  - by apply (endswith_last_char p "In" "t").
  - by apply (endswith_last_char p "Floa" "t").
  - by apply (endswith_last_char p "Boolea" "n").
Qed.

(** Every attribute line is nullable: in none of the three generators does
    the line of an attribute end with the required marker '!'. *)
Theorem attribute_lines_nullable :
  (∀ prop_definitions prop_name,
     Py.endswith (Plain.property_line prop_definitions prop_name) "!" = false) ∧
  (∀ item, Py.endswith (Mdf.property_line item) "!" = false) ∧
  (∀ prop, Py.endswith (Memgraph.property_line prop) "!" = false).
Proof.
  split_and!.
  - intros defs name. unfold Plain.property_line.
    rewrite <- !append_assoc. apply endswith_bang_scalar.
    apply determine_graphql_type_in_scalars.
  - intros [pname prop]. unfold Mdf.property_line.
    destruct (map_value_domain_shape prop) as [(elem & _ & ->) | Hscalar].
    + rewrite <- !append_assoc, endswith_snoc_1. done.
    + rewrite <- !append_assoc. by apply endswith_bang_scalar.
  - intros prop. unfold Memgraph.property_line, Memgraph.determine_field_type.
    rewrite <- !append_assoc. apply endswith_bang_scalar. left.
Qed.

(** ** singularize *)

Lemma endswith_suffix_of_suffix (s p t : string) :
  Py.endswith s (p +:+ t) = true → Py.endswith s t = true.
Proof.
  rewrite !endswith_spec. intros [q ->]. exists (q +:+ p). by rewrite append_assoc.
Qed.

Lemma ends_ss_not_es (p : string) (c : ascii) :
  Py.endswith (p +:+ "ss") (String c "es") = false ∧ Py.endswith (p +:+ "ss") "ss" = true.
Proof.
  split; [| apply endswith_append].
  destruct (Py.endswith (p +:+ "ss") (String c "es")) eqn:E; [| done].
  apply endswith_spec in E as [q Hq].
  assert ((p +:+ "s") +:+ "s" = (q +:+ String c "e") +:+ "s") as H1
    by (by rewrite !append_assoc).
  apply append_snoc_inj in H1 as [H1 _].
  assert (p +:+ "s" = (q +:+ String c "") +:+ "e") as H2 by (by rewrite H1, append_assoc).
  apply append_snoc_inj in H2 as [_ H2]. discriminate.
Qed.

(** singularize leaves a name alone unless it ends in a single 's': names
    not ending in 's' and names ending in "ss" are unchanged; and it never
    lengthens a name nor removes more than two characters. *)
Theorem singularize_bounds (name : string) :
  (Py.endswith name "s" = false → Mdf.singularize name = name) ∧
  (Py.endswith name "ss" = true → Mdf.singularize name = name) ∧
  String.length (Mdf.singularize name) ≤ String.length name ∧
  String.length name ≤ String.length (Mdf.singularize name) + 2.
Proof.
  split_and!.
  - intros Hs. unfold Mdf.singularize.
    destruct (Py.endswith name "ies") eqn:E1.
    { apply (endswith_suffix_of_suffix name "ie" "s") in E1. congruence. }
    destruct (Py.endswith name "ses") eqn:E2.
    { apply (endswith_suffix_of_suffix name "se" "s") in E2. congruence. }
    by rewrite Hs.
  - intros Hss. unfold Mdf.singularize. rewrite Hss.
    apply endswith_spec in Hss as [p ->].
    destruct (ends_ss_not_es p "i") as [-> _]. destruct (ends_ss_not_es p "s") as [-> _].
    by rewrite andb_false_r.
  - unfold Mdf.singularize.
    destruct (Py.endswith name "ies") eqn:E1.
    { apply endswith_spec in E1 as [p ->].
      change 3 with (String.length "ies"). rewrite drop_last_append, !append_length. simpl. lia. }
    destruct (Py.endswith name "ses") eqn:E2.
    { apply endswith_spec in E2 as [p ->]. change "ses" with ("s" +:+ "es").
      rewrite <- (append_assoc p). change 2 with (String.length "es").
      rewrite drop_last_append, !append_length. simpl. lia. }
    destruct (Py.endswith name "s") eqn:E3; simpl; [| lia].
    destruct (Py.endswith name "ss"); simpl; [lia |].
    apply endswith_spec in E3 as [p ->].
    change 1 with (String.length "s"). rewrite drop_last_append, !append_length. simpl. lia.
  - unfold Mdf.singularize.
    destruct (Py.endswith name "ies") eqn:E1.
    { apply endswith_spec in E1 as [p ->].
      change 3 with (String.length "ies"). rewrite drop_last_append, !append_length. simpl. lia. }
    destruct (Py.endswith name "ses") eqn:E2.
    { apply endswith_spec in E2 as [p ->]. change "ses" with ("s" +:+ "es").
      rewrite <- (append_assoc p). change 2 with (String.length "es").
      rewrite drop_last_append, !append_length. simpl. lia. }
    destruct (Py.endswith name "s") eqn:E3; simpl; [| lia].
    destruct (Py.endswith name "ss"); simpl; [lia |].
    apply endswith_spec in E3 as [p ->].
    change 1 with (String.length "s"). rewrite drop_last_append, !append_length. simpl. lia.
Qed.

(** ** Field-name sanitization *)

Lemma join_empty_cons (x : string) (l : list string) :
  Py.join "" (x :: l) = x +:+ Py.join "" l.
Proof. destruct l; simpl; [by rewrite append_nil_r | done]. Qed.

Lemma chars_cons_nonempty (c : ascii) (s : string) : Py.chars (String c s) ≠ [].
Proof. simpl. destruct s as [|d t]; [done |]. by repeat case_match. Qed.

(** The characters of a text make up the text. *)
Lemma join_chars (s : string) : Py.join "" (Py.chars s) = s.
Proof.
  induction s as [|c s IH]; [done |].
  destruct s as [|d t]; [done |].
  change (Py.chars (String c (String d t)))
    with (if Py.is_continuation d then
            match Py.chars (String d t) with
            | ch :: rest => String c ch :: rest
            | [] => [String c EmptyString]
            end
          else String c EmptyString :: Py.chars (String d t)).
  destruct (Py.is_continuation d).
  - destruct (Py.chars (String d t)) as [|ch rest] eqn:E;
      [by apply chars_cons_nonempty in E |].
    rewrite join_empty_cons in *. rewrite append_cons. by rewrite IH.
  - rewrite join_empty_cons, IH. done.
Qed.

Lemma valid_char_ascii (c : ascii) : valid_char c = true → Py.is_ascii_char c = true.
Proof. by destruct c as [[] [] [] [] [] [] [] []]. Qed.

Lemma chars_ascii_cons (c : ascii) (s : string) :
  Py.is_ascii s = true → Py.chars (String c s) = String c "" :: Py.chars s.
Proof.
  destruct s as [|d t]; [done |]. simpl Py.is_ascii. intros [Hd _]%andb_true_iff.
  change (Py.chars (String c (String d t)))
    with (if Py.is_continuation d then
            match Py.chars (String d t) with
            | ch :: rest => String c ch :: rest
            | [] => [String c EmptyString]
            end
          else String c EmptyString :: Py.chars (String d t)).
  assert (Py.is_continuation d = false) as ->; [| done].
  unfold Py.is_continuation, Py.is_ascii_char in *.
  apply Nat.ltb_lt in Hd. apply andb_false_iff. left. apply Nat.leb_gt. lia.
Qed.

Lemma safe_char_ascii (c : ascii) :
  Py.is_ascii_char c = true → Mdf.safe_char (String c "") = String (ascii_safe_char c) "".
Proof.
  intros Hc. unfold Mdf.safe_char, Py.isalnum, ascii_safe_char, valid_char. rewrite Hc.
  replace (String.eqb (String c "") "_") with (Ascii.eqb c "_")
    by (simpl; by destruct (Ascii.eqb c "_")).
  by destruct (Py.is_alnum_ascii c || Ascii.eqb c "_").
Qed.

(** On an ASCII name the sanitization works byte by byte. *)
Lemma safe_name_ascii (pname : string) :
  Py.is_ascii pname = true → Mdf.safe_name pname = Py.map_chars ascii_safe_char pname.
Proof.
  unfold Mdf.safe_name. induction pname as [|c s IH]; [done |].
  simpl Py.is_ascii. intros [Hc Hs]%andb_true_iff.
  rewrite chars_ascii_cons, fmap_cons, join_empty_cons by done.
  by rewrite safe_char_ascii, IH.
Qed.

(** A name made of letters, digits and underscores is written as it is. *)
Lemma safe_name_unchanged (pname : string) :
  Forall (λ ch, Py.isalnum ch || String.eqb ch "_" = true) (Py.chars pname) →
  Mdf.safe_name pname = pname.
Proof.
  intros Hall. unfold Mdf.safe_name.
  rewrite <- (join_chars pname) at 2. f_equal.
  rewrite <- (list_fmap_id (Py.chars pname)) at 2. apply Forall_fmap_ext_1.
  eapply Forall_impl; [exact Hall |]. intros ch Hch. unfold Mdf.safe_char. by rewrite Hch.
Qed.

(** The name written for an attribute: a name whose characters are all
    letters, digits or underscores is written unchanged; the written form of
    an ASCII name has the length of the name and only ASCII letters, digits
    and underscores, and sanitizing it again changes nothing. *)
Theorem safe_name_valid (pname : string) :
  (Forall (λ ch, Py.isalnum ch || String.eqb ch "_" = true) (Py.chars pname) →
     Mdf.safe_name pname = pname) ∧
  (Py.is_ascii pname = true →
     String.length (Mdf.safe_name pname) = String.length pname ∧
     all_chars valid_char (Mdf.safe_name pname) = true ∧
     (all_chars valid_char pname = true → Mdf.safe_name pname = pname) ∧
     Mdf.safe_name (Mdf.safe_name pname) = Mdf.safe_name pname).
Proof.
  assert (∀ s, all_chars valid_char s = true → Py.map_chars ascii_safe_char s = s) as Hid.
  { induction s as [|c s IH]; simpl; [done |].
    intros [Hc Hs]%andb_true_iff. rewrite IH by done.
    unfold ascii_safe_char. by rewrite Hc. }
  assert (∀ s, all_chars valid_char (Py.map_chars ascii_safe_char s) = true) as Hvalid.
  { induction s as [|c s IH]; simpl; [done |]. rewrite IH, andb_true_r.
    unfold ascii_safe_char. by destruct (valid_char c) eqn:E. }
  assert (∀ s, all_chars valid_char s = true → Py.is_ascii s = true) as Hascii.
  { induction s as [|c s IH]; simpl; [done |].
    intros [Hc Hs]%andb_true_iff. by rewrite valid_char_ascii, IH. }
  split.
  - apply safe_name_unchanged.
  - intros Hpname. rewrite (safe_name_ascii pname Hpname). split_and!.
    + clear. induction pname as [|c s IH]; simpl; [done | by rewrite IH].
    + apply Hvalid.
    + apply Hid.
    + rewrite safe_name_ascii by apply Hascii, Hvalid. apply Hid, Hvalid.
Qed.

(** C9. In data-model-schema-graphql-mdf.py the attribute lines of a type
    block follow the attributes sorted by name: the text of the block is the
    opening line, then for each attribute, in increasing order of the
    attribute names, the line made of two spaces, the written name, a colon
    and the scalar, then the relationship lines and the closing line, joined
    by newlines. The written name is the attribute name with every other
    character than a letter, a digit or an underscore replaced by an
    underscore, so the names read off the block are the attribute names, in
    increasing order, when the names are made of letters, digits and
    underscores. With distinct attribute names the block is the same for
    every order of the attributes in the model. *)
Theorem property_fields_sorted (model : Mdf.Model) (node : Mdf.Node) :
  let items := Py.sorted Mdf.item_le (Mdf.props node) in
  items ≡ₚ Mdf.props node ∧
  StronglySorted (λ a b, String.leb a.1 b.1 = true) items ∧
  Mdf.generate_type_sdl model node
  = Py.join Py.nl
      (["type " +:+ Mdf.handle node +:+ " {"]
       ++ ((λ item, "  " +:+ Mdf.safe_name item.1 +:+ ": "
                    +:+ Mdf.map_value_domain_to_graphql item.2) <$> items)
       ++ (Mdf.field_line model <$> Mdf.build_relationship_fields model node)
       ++ ["}"]) ∧
  (Forall (λ item, Forall (λ ch, Py.isalnum ch || String.eqb ch "_" = true) (Py.chars item.1))
          (Mdf.props node) →
     Mdf.safe_name <$> items.*1 = items.*1 ∧
     StronglySorted (λ a b, String.leb a b = true) (Mdf.safe_name <$> items.*1)) ∧
  (∀ props', NoDup (Mdf.props node).*1 → props' ≡ₚ Mdf.props node →
     Mdf.generate_type_sdl model (with_props node props') = Mdf.generate_type_sdl model node).
Proof.
  destruct (sorted_by_key fst (Mdf.props node)) as [Hperm Hsorted].
  split_and!; [exact Hperm | exact Hsorted | | |].
  - unfold Mdf.generate_type_sdl, Mdf.type_lines. rewrite <- !app_assoc.
    do 2 f_equal. f_equal. apply list_fmap_ext. by intros i [pname prop] _.
  - intros Hnames.
    assert (Mdf.safe_name <$> (Py.sorted Mdf.item_le (Mdf.props node)).*1
            = (Py.sorted Mdf.item_le (Mdf.props node)).*1) as Hsame.
    { rewrite <- (list_fmap_id (Py.sorted Mdf.item_le (Mdf.props node)).*1) at 2.
      apply Forall_fmap_ext_1, Forall_fmap.
      change Mdf.item_le with (λ a b : string * Mdf.Property, String.leb a.1 b.1).
      rewrite Hperm. eapply Forall_impl; [exact Hnames |].
      intros item Hitem. by apply safe_name_unchanged. }
    split; [exact Hsame |]. rewrite Hsame.
    assert (∀ l : list (string * Mdf.Property),
              StronglySorted (λ a b, String.leb a.1 b.1 = true) l →
              StronglySorted (λ a b, String.leb a b = true) l.*1) as Hfst.
    { intros l Hl. induction Hl as [|item items Hitems IH Hle]; [constructor |].
      rewrite fmap_cons. constructor; [exact IH |]. by apply Forall_fmap. }
    by apply Hfst.
  - intros props' Hnd Hp.
    unfold Mdf.generate_type_sdl, Mdf.type_lines, with_props. simpl.
    unfold Mdf.item_le. by rewrite (sorted_by_key_unique fst _ _ Hnd Hp).
Qed.

(** ** The name counter of build_relationship_fields *)

Lemma occurrences_cons (base b : string) (seen : list string) :
  occurrences base (b :: seen) = (if decide (b = base) then 1 else 0) + occurrences base seen.
Proof.
  unfold occurrences. destruct (decide (b = base)) as [Heq | Hne].
  - by rewrite filter_cons_True.
  - by rewrite filter_cons_False.
Qed.

Lemma occurrences_app (base : string) (l1 l2 : list string) :
  occurrences base (l1 ++ l2) = occurrences base l1 + occurrences base l2.
Proof. unfold occurrences. by rewrite filter_app, length_app. Qed.

Lemma out_step_name_step node st e :
  Mdf.out_step node st e
  = if decide (Mdf.src e = Mdf.handle node)
    then name_step st (out_base e, Mdf.dst e, OUT) else st.
Proof.
  destruct st as [rels used]. unfold Mdf.out_step, name_step, out_base.
  destruct (String.eqb_spec (Mdf.src e) (Mdf.handle node)); case_decide; done.
Qed.

Lemma in_step_name_step node st e :
  Mdf.in_step node st e
  = if decide (Mdf.dst e = Mdf.handle node)
    then name_step st (in_base node e, Mdf.src e, IN) else st.
Proof.
  destruct st as [rels used]. unfold Mdf.in_step, name_step, in_base.
  destruct (String.eqb_spec (Mdf.dst e) (Mdf.handle node)); case_decide; done.
Qed.

Lemma foldl_filtered_steps {E} (P : E → Prop) `{∀ e, Decision (P e)}
    (item : E → string * string * Direction)
    (step : list (string * string * Direction) * gmap string nat → E →
            list (string * string * Direction) * gmap string nat) :
  (∀ st e, step st e = if decide (P e) then name_step st (item e) else st) →
  ∀ es st, foldl step st es = foldl name_step st (item <$> filter P es).
Proof.
  intros Hstep es. induction es as [|e es IH]; intros st; simpl; [done |].
  rewrite Hstep. destruct (decide (P e)).
  - rewrite filter_cons_True by done. simpl. apply IH.
  - rewrite filter_cons_False by done. apply IH.
Qed.

Lemma foldl_name_step items :
  ∀ rels (used : gmap string nat) seen,
    (∀ b, default 0 (used !! b) = occurrences b seen) →
    ∃ used' : gmap string nat,
      foldl name_step (rels, used) items = (rels ++ number_names seen items, used') ∧
      (∀ b, default 0 (used' !! b) = occurrences b (reverse (items.*1.*1) ++ seen)).
Proof.
  induction items as [|[[base t] d] items IH]; intros rels used seen Hused; simpl.
  - exists used. by rewrite app_nil_r.
  - replace (name_step (rels, used) (base, t, d))
      with (rels ++ [(numbered_name seen base, t, d)],
            <[base := occurrences base seen + 1]> used).
    2:{ unfold name_step, Mdf.next_name, numbered_name. simpl. by rewrite Hused. }
    destruct (IH (rels ++ [(numbered_name seen base, t, d)])
                 (<[base := occurrences base seen + 1]> used) (base :: seen))
      as (used' & Hfold & Hused').
    { intros b. rewrite occurrences_cons. destruct (decide (base = b)) as [-> | Hne].
      - rewrite lookup_insert_eq. simpl. lia.
      - rewrite lookup_insert_ne by done. by rewrite Hused. }
    exists used'. split.
    + rewrite Hfold, <- app_assoc. done.
    + intros b. rewrite Hused', reverse_cons, <- app_assoc. done.
Qed.

Lemma number_names_app seen xs ys :
  number_names seen (xs ++ ys)
  = number_names seen xs ++ number_names (reverse (xs.*1.*1) ++ seen) ys.
Proof.
  revert seen. induction xs as [|[[base t] d] xs IH]; intros seen; simpl; [done |].
  rewrite IH, reverse_cons, <- app_assoc. done.
Qed.

Lemma number_names_length seen items : length (number_names seen items) = length items.
Proof.
  revert seen. induction items as [|[[base t] d] items IH]; intros seen; simpl; [done |].
  by rewrite IH.
Qed.

Lemma unsorted_fields_numbered model node :
  Mdf.unsorted_relationship_fields model node
  = number_names [] (mdf_out_items model node ++ mdf_in_items model node).
Proof.
  unfold Mdf.unsorted_relationship_fields.
  rewrite (foldl_filtered_steps (λ e, Mdf.src e = Mdf.handle node)
             (λ e, (out_base e, Mdf.dst e, OUT)) (Mdf.out_step node))
    by apply out_step_name_step.
  rewrite (foldl_filtered_steps (λ e, Mdf.dst e = Mdf.handle node)
             (λ e, (in_base node e, Mdf.src e, IN)) (Mdf.in_step node))
    by apply in_step_name_step.
  fold (mdf_out_items model node). fold (mdf_in_items model node).
  destruct (foldl_name_step (mdf_out_items model node) [] ∅ []) as (used1 & -> & Hused1).
  { intros b. by rewrite lookup_empty. }
  destruct (foldl_name_step (mdf_in_items model node)
              ([] ++ number_names [] (mdf_out_items model node)) used1
              (reverse ((mdf_out_items model node).*1.*1) ++ []))
    as (used2 & -> & _); [done |].
  simpl. by rewrite number_names_app.
Qed.

(** build_relationship_fields drops no edge and names the fields by
    counting: a node gets one field per edge leaving it and one per edge
    entering it; going through the leaving edges and then the entering ones,
    the first field of a base name gets the base name and the k-th one, for
    k from 2 on, the base name followed by '_' and k, the count being shared
    by both directions. *)
Theorem relationship_fields_numbered (model : Mdf.Model) (node : Mdf.Node) :
  Mdf.unsorted_relationship_fields model node
  = number_names [] (mdf_out_items model node ++ mdf_in_items model node) ∧
  Mdf.build_relationship_fields model node ≡ₚ Mdf.unsorted_relationship_fields model node ∧
  length (Mdf.build_relationship_fields model node)
  = length (filter (λ e, Mdf.src e = Mdf.handle node) (Mdf.edges model))
    + length (filter (λ e, Mdf.dst e = Mdf.handle node) (Mdf.edges model)).
Proof.
  split_and!.
  - apply unsorted_fields_numbered.
  - apply sorted_Permutation.
  - unfold Mdf.build_relationship_fields. rewrite sorted_Permutation.
    rewrite unsorted_fields_numbered, number_names_length, length_app.
    unfold mdf_out_items, mdf_in_items. by rewrite !length_fmap.
Qed.

(** A relationship of a type with itself, alone in the model, gives the type
    two fields: the OUT field under the base name and the IN field under the
    base name with the counter 2. *)
Theorem self_relationship_fields (model : Mdf.Model) (node : Mdf.Node) (edge : Mdf.Edge) :
  Mdf.edges model = [edge] →
  Mdf.src edge = Mdf.handle node → Mdf.dst edge = Mdf.handle node →
  Mdf.build_relationship_fields model node
  = [ (in_base node edge, Mdf.handle node, OUT);
      (in_base node edge +:+ "_2", Mdf.handle node, IN) ].
Proof.
  intros Hedges Hsrc Hdst. unfold Mdf.build_relationship_fields.
  rewrite unsorted_fields_numbered. unfold mdf_out_items, mdf_in_items.
  rewrite Hedges, !filter_cons_True, filter_nil by done. simpl.
  assert (out_base edge = in_base node edge) as -> by (unfold out_base, in_base; by rewrite Hdst).
  unfold numbered_name. rewrite occurrences_cons.
  rewrite (decide_True (P := in_base node edge = in_base node edge)) by done.
  rewrite Hsrc, Hdst. reflexivity.
Qed.

(** ** The order of the fields of build_relationship_fields *)

Lemma rel_key_le_total_false r1 r2 :
  Mdf.rel_key_le r1 r2 = false → Mdf.rel_key_le r2 r1 = true.
Proof.
  destruct r1 as [[f1 t1] [|]], r2 as [[f2 t2] [|]]; simpl; try done;
    apply leb_total_false.
Qed.

Lemma rel_key_le_trans r1 r2 r3 :
  Mdf.rel_key_le r1 r2 = true → Mdf.rel_key_le r2 r3 = true → Mdf.rel_key_le r1 r3 = true.
Proof.
  destruct r1 as [[f1 t1] [|]], r2 as [[f2 t2] [|]], r3 as [[f3 t3] [|]]; simpl; try done;
    apply leb_trans.
Qed.

Lemma sorted_fields_split (l : list (string * string * Direction)) :
  StronglySorted (λ a b, Mdf.rel_key_le a b = true) l →
  ∃ outs ins,
    l = outs ++ ins ∧
    Forall (λ r, r.2 = OUT) outs ∧ Forall (λ r, r.2 = IN) ins ∧
    StronglySorted (λ a b, String.leb a.1.1 b.1.1 = true) outs ∧
    StronglySorted (λ a b, String.leb a.1.1 b.1.1 = true) ins.
Proof.
  induction 1 as [|x l Hl IH Hx].
  - exists [], []. split_and!; constructor.
  - destruct IH as (outs & ins & -> & Hout & Hin & Hso & Hsi).
    destruct x as [[f t] [|]].
    + exists ((f, t, OUT) :: outs), ins. split_and!; try done.
      * by constructor.
      * constructor; [done |]. apply Forall_app in Hx as [Hx _].
        rewrite Forall_forall in Hx, Hout. apply Forall_forall. intros [[f' t'] d'] Hin'.
        specialize (Hx _ Hin'). specialize (Hout _ Hin'). simpl in Hout. subst d'.
        exact Hx.
    + assert (Forall (λ r, r.2 = IN) (outs ++ ins)) as Hall.
      { eapply Forall_impl; [exact Hx |]. by intros [[f' t'] [|]]. }
      apply Forall_app in Hall as [Houts' _].
      destruct outs as [|o outs].
      * exists [], ((f, t, IN) :: ins). split_and!; try done; [by constructor |].
        constructor; [done |]. simpl in Hx.
        rewrite Forall_forall in Hx, Hin. apply Forall_forall. intros [[f' t'] d'] Hin'.
        specialize (Hx _ Hin'). specialize (Hin _ Hin'). simpl in Hin. subst d'.
        exact Hx.
      * apply Forall_cons in Hout as [Ho _]. apply Forall_cons in Houts' as [Ho' _].
        congruence.
Qed.

(** The fields of a type come sorted: all OUT fields before all IN fields,
    and the fields of one direction in increasing order of their names. *)
Theorem relationship_fields_order (model : Mdf.Model) (node : Mdf.Node) :
  StronglySorted (λ a b, Mdf.rel_key_le a b = true) (Mdf.build_relationship_fields model node) ∧
  ∃ outs ins,
    Mdf.build_relationship_fields model node = outs ++ ins ∧
    Forall (λ r, r.2 = OUT) outs ∧ Forall (λ r, r.2 = IN) ins ∧
    StronglySorted (λ a b, String.leb a.1.1 b.1.1 = true) outs ∧
    StronglySorted (λ a b, String.leb a.1.1 b.1.1 = true) ins.
Proof.
  assert (StronglySorted (λ a b, Mdf.rel_key_le a b = true)
            (Mdf.build_relationship_fields model node)) as Hsorted.
  { apply sorted_StronglySorted; [apply rel_key_le_total_false | apply rel_key_le_trans]. }
  split; [done | by apply sorted_fields_split].
Qed.

(** ** Recovering the label of a field *)

Lemma split_nonempty sep s : Py.split sep s ≠ [].
Proof. destruct s as [|c s]; simpl; [done |]. by repeat case_match. Qed.

Lemma contains_cons (pat : string) (c : ascii) (s : string) :
  Py.contains pat (String c s)
  = if String.prefix pat (String c s) then true else Py.contains pat s.
Proof. reflexivity. Qed.

Lemma split_without_separator sep s :
  Py.contains (String sep "") s = false → Py.split sep s = [s].
Proof.
  induction s as [|c s IH]; [done |].
  rewrite contains_cons. simpl String.prefix.
  destruct (ascii_dec sep c) as [<- | Hne].
  - by destruct s.
  - intros Hs. simpl. destruct (Ascii.eqb_spec c sep) as [-> | _]; [done |].
    by rewrite IH.
Qed.

Lemma split_append_separator sep x y :
  ∃ front, Py.split sep (x +:+ String sep y) = front ++ Py.split sep y ∧ front ≠ [].
Proof.
  induction x as [|c x (front & IH & Hne)].
  - exists [""]. rewrite append_nil_l. simpl. by rewrite Ascii.eqb_refl.
  - rewrite append_cons. simpl. rewrite IH. destruct (Ascii.eqb c sep).
    + exists ("" :: front). done.
    + destruct front as [|p ps]; [done |]. exists (String c p :: ps). done.
Qed.

Lemma last_part_after_separator sep x y :
  Py.contains (String sep "") y = false →
  Py.last_part (Py.split sep (x +:+ String sep y)) = y.
Proof.
  intros Hy. destruct (split_append_separator sep x y) as (front & -> & _).
  rewrite split_without_separator by done. unfold Py.last_part.
  by rewrite last_last.
Qed.

Lemma find_edge_handle_elem (es : list Mdf.Edge) (edge : Mdf.Edge) :
  edge ∈ es →
  ∃ found, found ∈ es ∧ Py.lower (Mdf.edge_handle found) = Py.lower (Mdf.edge_handle edge) ∧
           Mdf.find_edge_handle es (Py.lower (Mdf.edge_handle edge))
           = Some (Py.upper (Mdf.edge_handle found)).
Proof.
  induction es as [|e es IH]; intros Hin; [by apply elem_of_nil in Hin |]. simpl.
  destruct (String.eqb_spec (Py.lower (Mdf.edge_handle e)) (Py.lower (Mdf.edge_handle edge)))
    as [Heq | Hne].
  - exists e. split_and!; [left | done | done].
  - apply elem_of_cons in Hin as [-> | Hin]; [done |].
    destruct (IH Hin) as (found & ? & ? & ?). exists found. split_and!; [by right | done..].
Qed.

(** The label written in the annotation of a field is the label of its edge
    in upper case whenever the field name ends in '_' followed by the
    lowercased label of an edge of the model, that label has no underscore of
    its own, and no edge of the model with another label has the same
    lowercased label. *)
Theorem label_recovered_without_underscore (model : Mdf.Model) (edge : Mdf.Edge)
    (front target : string) (direction : Direction) :
  edge ∈ Mdf.edges model →
  (∀ other, other ∈ Mdf.edges model →
     Py.lower (Mdf.edge_handle other) = Py.lower (Mdf.edge_handle edge) →
     Mdf.edge_handle other = Mdf.edge_handle edge) →
  Py.contains "_" (Py.lower (Mdf.edge_handle edge)) = false →
  Mdf._relationship_type_name model (front +:+ "_" +:+ Py.lower (Mdf.edge_handle edge))
    target direction
  = Py.upper (Mdf.edge_handle edge).
Proof.
  intros Hedge Hdistinct Hno. unfold Mdf._relationship_type_name.
  change (front +:+ "_" +:+ Py.lower (Mdf.edge_handle edge))
    with (front +:+ String "_" (Py.lower (Mdf.edge_handle edge))).
  rewrite last_part_after_separator by done.
  destruct (find_edge_handle_elem _ _ Hedge) as (found & Hfound & Hlower & ->).
  by rewrite (Hdistinct found Hfound Hlower).
Qed.

(** ** The document does not depend on the order of the nodes *)

(** With distinct node handles, generate_schema gives the same document for
    every order of the nodes in the model. *)
Theorem generate_schema_node_order (model : Mdf.Model) (nodes' : list Mdf.Node) :
  NoDup (Mdf.handle <$> Mdf.nodes model) → nodes' ≡ₚ Mdf.nodes model →
  Mdf.generate_schema (with_nodes model nodes') = Mdf.generate_schema model.
Proof.
  intros Hnd Hperm. unfold Mdf.generate_schema, with_nodes. simpl.
  unfold Mdf.node_le. by rewrite (sorted_by_key_unique Mdf.handle _ _ Hnd Hperm).
Qed.

(** ** What the relationship loops of data-model-schema-graphql.py drop *)

Lemma rel_key_shift (l t u : string) (d : Direction) :
  rel_key (l +:+ "_" +:+ t) u d = rel_key l (t +:+ "_" +:+ u) d.
Proof. unfold rel_key. by rewrite !append_assoc. Qed.

(** The key of a fact is a plain concatenation, so two different facts can
    share it: a label l_t to a type u and a label l to a type t_u. On a
    block with both, in either generator with a key set, only the first is
    written; the second is dropped as a repetition. *)
Theorem rel_key_aliasing (node_name l t u : string) (d : Direction) :
  (l +:+ "_" +:+ t, u, d) ≠ (l, t +:+ "_" +:+ u, d) ∧
  rel_key (l +:+ "_" +:+ t) u d = rel_key l (t +:+ "_" +:+ u) d ∧
  Plain.relationship_fields node_name [(l +:+ "_" +:+ t, u, d); (l, t +:+ "_" +:+ u, d)]
  = [field_of node_name (l +:+ "_" +:+ t, u, d)] ∧
  Memgraph.relationship_fields node_name [(l +:+ "_" +:+ t, u, d); (l, t +:+ "_" +:+ u, d)]
  = [field_of node_name (l +:+ "_" +:+ t, u, d)].
Proof.
  split_and!.
  - intros Heq. inversion Heq as [[Hl Hu]].
    rewrite <- (append_nil_r l) in Hl at 2. by apply (inj (String.app l)) in Hl.
  - apply rel_key_shift.
  - unfold Plain.relationship_fields, Plain.relationship_passes, Plain.out_pass.
    simpl. unfold Plain.out_step, Plain.in_step, Plain.init_state. simpl.
    rewrite <- rel_key_shift.
    destruct d; repeat (case_decide; simpl in *); try done; set_solver.
  - unfold Memgraph.relationship_fields, Memgraph.relationship_pass.
    simpl. unfold Memgraph.step. simpl. rewrite <- rel_key_shift.
    repeat (case_decide; simpl in *); try done; set_solver.
Qed.

Lemma fact_key_direction r r' : fact_key r = fact_key r' → r.2 = r'.2.
Proof.
  destruct r as [[l t] d], r' as [[l' t'] d']. unfold fact_key, rel_key. simpl.
  rewrite <- !append_assoc. intros Heq.
  destruct d, d'; simpl in Heq; try done.
  - change "OUT" with ("OU" +:+ "T") in Heq. change "IN" with ("I" +:+ "N") in Heq.
    rewrite <- !append_assoc in Heq. apply append_snoc_inj in Heq as [_ ?]. done.
  - change "OUT" with ("OU" +:+ "T") in Heq. change "IN" with ("I" +:+ "N") in Heq.
    rewrite <- !append_assoc in Heq. apply append_snoc_inj in Heq as [_ ?]. done.
Qed.

Lemma accounted_step node_name all r st st' :
  r ∈ all → accounted node_name all st → step_effect node_name r st st' →
  accounted node_name all st'.
Proof.
  intros Hr [Hnames Hkeys] [-> | [(Happ & Hn & Hk) | (Hd & Happ & Hn & Hin & Hk)]].
  - done.
  - split.
    + intros n. rewrite Hn, Happ, elem_of_union, elem_of_singleton.
      intros [Hold | ->].
      * destruct (Hnames n Hold) as (f & ? & ?). exists f. split; [set_solver | done].
      * exists (field_of node_name r). split; [set_solver | done].
    + intros k. rewrite Hk, Happ, elem_of_union, elem_of_singleton.
      intros [Hold | ->].
      * destruct (Hkeys k Hold) as (f & ? & ?). exists f. split; [set_solver | done].
      * exists (field_of node_name r). split; [set_solver |]. left. by destruct r as [[??]?].
  - split.
    + intros n. rewrite Hn, Happ. apply Hnames.
    + intros k. rewrite Hk, Happ, elem_of_union, elem_of_singleton.
      intros [Hold | ->]; [by apply Hkeys |].
      destruct (Hnames _ Hin) as (f & Hf & Hname). exists f. split; [done |].
      right. exists r. done.
Qed.

Lemma out_step_effect node_name st r :
  step_effect node_name r st (Plain.out_step id node_name st r) ∧
  (r.2 = OUT → fact_key r ∈ Plain.added_relationships (Plain.out_step id node_name st r)).
Proof.
  destruct r as [[rel_type target_node] direction]. unfold Plain.out_step, step_effect, fact_key.
  simpl. case_decide as Hd; [split; [by left | done] |].
  case_decide as Hk; [split; [by left | done] |].
  split; [right; left; done | intros _; simpl; set_solver].
Qed.

Lemma in_step_effect node_name st r :
  step_effect node_name r st (Plain.in_step id node_name st r) ∧
  (r.2 = IN → fact_key r ∈ Plain.added_relationships (Plain.in_step id node_name st r)).
Proof.
  destruct r as [[rel_type target_node] direction]. unfold Plain.in_step, step_effect, fact_key.
  simpl. case_decide as Hd; [split; [by left | done] |].
  case_decide as Hk; [split; [by left | done] |].
  case_decide as Hn.
  - split; [right; right; simpl; split_and!; try done; by destruct direction
           | intros _; simpl; set_solver].
  - split; [right; left; done | intros _; simpl; set_solver].
Qed.

Lemma step_effect_keys node_name r st st' :
  step_effect node_name r st st' →
  Plain.added_relationships st ⊆ Plain.added_relationships st'.
Proof. intros [-> | [(_ & _ & ->) | (_ & _ & _ & _ & ->)]]; set_solver. Qed.

Lemma foldl_accounted node_name all (d : Direction)
    (step : Plain.LoopState CompiledField → string * string * Direction →
            Plain.LoopState CompiledField) :
  (∀ st r, step_effect node_name r st (step st r) ∧
           (r.2 = d → fact_key r ∈ Plain.added_relationships (step st r))) →
  ∀ rels st,
    (∀ r, r ∈ rels → r ∈ all) → accounted node_name all st →
    accounted node_name all (foldl step st rels) ∧
    Plain.added_relationships st ⊆ Plain.added_relationships (foldl step st rels) ∧
    (∀ r, r ∈ rels → r.2 = d → fact_key r ∈ Plain.added_relationships (foldl step st rels)).
Proof.
  intros Hstep rels. induction rels as [|r rels IH]; intros st Hall Hacc; simpl.
  - split_and!; [done | done |]. intros r Hr. by apply elem_of_nil in Hr.
  - destruct (Hstep st r) as [Heff Hkey].
    destruct (IH (step st r)) as (Hacc' & Hsub & Hkeys).
    { intros r' Hr'. apply Hall. by right. }
    { eapply accounted_step; [apply Hall; left | done | done]. }
    pose proof (step_effect_keys _ _ _ _ Heff) as Hsub0.
    split_and!; [done | set_solver |].
    intros r' Hr' Hd. apply elem_of_cons in Hr' as [-> | Hr']; [| by apply Hkeys].
    apply Hsub. by apply Hkey.
Qed.

(** The relationship loops lose no fact without a reason: every OUT fact of
    a node has a field with its key on the block; every IN fact has a field
    with its key on the block, or a field on the block carries the name that
    it, or an IN fact of the same key, would have been given. *)
Theorem facts_accounted_for (node_name : string)
    (node_relationships : list (string * string * Direction))
    (r : string * string * Direction) :
  r ∈ node_relationships →
  ∃ f, f ∈ Plain.relationship_fields node_name node_relationships ∧
       (key_of f = fact_key r ∨
        (r.2 = IN ∧
         ∃ r', r' ∈ node_relationships ∧ r'.2 = IN ∧ fact_key r' = fact_key r ∧
               field_name f = relationship_field_name node_name r'.1.2)).
Proof.
  intros Hr. unfold Plain.relationship_fields, Plain.relationship_passes, Plain.out_pass.
  destruct (foldl_accounted node_name node_relationships OUT (Plain.out_step id node_name)
              (out_step_effect node_name) node_relationships Plain.init_state)
    as (Hacc1 & _ & Hkeys1); [done | |].
  { split; intros x Hx; simpl in Hx; by apply not_elem_of_empty in Hx. }
  destruct (foldl_accounted node_name node_relationships IN (Plain.in_step id node_name)
              (in_step_effect node_name) node_relationships
              (foldl (Plain.out_step id node_name) Plain.init_state node_relationships))
    as ([_ Hacc2] & Hsub2 & Hkeys2); [done | done |].
  assert (fact_key r ∈ Plain.added_relationships
            (foldl (Plain.in_step id node_name)
               (foldl (Plain.out_step id node_name) Plain.init_state node_relationships)
               node_relationships)) as Hkey.
  { destruct (r.2) eqn:Hd; [apply Hsub2, Hkeys1 | apply Hkeys2]; done. }
  destruct (Hacc2 _ Hkey) as (f & Hf & [Hkf | (r' & Hr' & Hd' & Hk' & Hname)]).
  - exists f. split; [done | by left].
  - exists f. split; [done |]. right. split.
    + apply fact_key_direction in Hk'. congruence.
    + exists r'. done.
Qed.

(** ** memgraph-schema-graphql.py *)

Lemma add_edge_lookup (m : gmap string (list (string * string * Direction))) edge n :
  default [] (Memgraph.add_edge m edge !! n) = default [] (m !! n) ++ facts_of_edge n edge.
Proof.
  unfold Memgraph.add_edge, facts_of_edge.
  destruct (Memgraph.start_node_labels edge) as [|s ss], (Memgraph.end_node_labels edge) as [|t ts];
    rewrite ?app_nil_r; try done.
  simpl. rewrite !map_append_lookup. by rewrite <- app_assoc.
Qed.

Lemma memgraph_map_lookup edges n :
  default [] (Memgraph.build_relationship_map edges !! n) = flat_map (facts_of_edge n) edges.
Proof.
  unfold Memgraph.build_relationship_map.
  change (flat_map (facts_of_edge n) edges)
    with (default [] ((∅ : gmap string (list (string * string * Direction))) !! n)
          ++ flat_map (facts_of_edge n) edges).
  generalize (∅ : gmap string (list (string * string * Direction))).
  induction edges as [|e es IH]; intros m; simpl.
  - by rewrite app_nil_r.
  - rewrite IH, add_edge_lookup. by rewrite <- app_assoc.
Qed.

(** The relationship map of memgraph-schema-graphql.py: an edge record files
    its OUT fact under its first start label and its IN fact under its first
    end label, in the order of the records; every fact filed comes from such
    an edge, so a record with an empty label list files nothing and labels
    after the first are never used. *)
Theorem memgraph_map_entries (edges : list Memgraph.EdgeRecord) :
  (∀ edge s ss t ts,
     edge ∈ edges →
     Memgraph.start_node_labels edge = s :: ss → Memgraph.end_node_labels edge = t :: ts →
     (Memgraph.edge_type edge, t, OUT)
       ∈ default [] (Memgraph.build_relationship_map edges !! s) ∧
     (Memgraph.edge_type edge, s, IN)
       ∈ default [] (Memgraph.build_relationship_map edges !! t)) ∧
  (∀ n rel_type other d,
     (rel_type, other, d) ∈ default [] (Memgraph.build_relationship_map edges !! n) →
     ∃ edge s ss t ts,
       edge ∈ edges ∧ Memgraph.edge_type edge = rel_type ∧
       Memgraph.start_node_labels edge = s :: ss ∧ Memgraph.end_node_labels edge = t :: ts ∧
       ((d = OUT ∧ s = n ∧ t = other) ∨ (d = IN ∧ t = n ∧ s = other))) ∧
  (∀ n, default [] (Memgraph.build_relationship_map edges !! n)
        = flat_map (facts_of_edge n) edges).
Proof.
  split_and!.
  - intros edge s ss t ts Hedge Hs Ht. rewrite !memgraph_map_lookup.
    rewrite !list_elem_of_In, !in_flat_map. split; exists edge;
      (split; [by apply list_elem_of_In |]); unfold facts_of_edge; rewrite Hs, Ht;
      apply list_elem_of_In.
    + rewrite decide_True by done. apply elem_of_app. left. left.
    + rewrite (decide_True (P := t = t)) by done. apply elem_of_app. right. left.
  - intros n rel_type other d. rewrite memgraph_map_lookup, list_elem_of_In, in_flat_map.
    intros (edge & Hedge & Hin). apply list_elem_of_In in Hedge. unfold facts_of_edge in Hin.
    destruct (Memgraph.start_node_labels edge) as [|s ss] eqn:Hs; [done |].
    destruct (Memgraph.end_node_labels edge) as [|t ts] eqn:Ht; [done |].
    exists edge, s, ss, t, ts.
    apply in_app_or in Hin as [Hin | Hin]; case_decide; simpl in Hin; try done;
      destruct Hin as [Heq | []]; inversion Heq; subst; split_and!; auto.
  - apply memgraph_map_lookup.
Qed.

Lemma memgraph_step_eq node_label keys (lines : list CompiledField) r :
  Memgraph.step id node_label (keys, lines) r
  = if decide (fact_key r ∈ keys) then (keys, lines)
    else (keys ∪ {[fact_key r]}, lines ++ [field_of node_label r]).
Proof. by destruct r as [[??]?]. Qed.

Lemma key_of_field_of node_name r : key_of (field_of node_name r) = fact_key r.
Proof. by destruct r as [[??]?]. Qed.

Lemma memgraph_pass_invariant node_label rels :
  ∀ keys (lines : list CompiledField),
    ∃ new,
      foldl (Memgraph.step id node_label) (keys, lines) rels
      = (keys ∪ list_to_set (key_of <$> new), lines ++ new) ∧
      sublist new (field_of node_label <$> rels) ∧
      NoDup (key_of <$> new) ∧
      Forall (λ f, key_of f ∉ keys) new ∧
      (∀ r, r ∈ rels → fact_key r ∈ keys ∪ list_to_set (key_of <$> new)).
Proof.
  induction rels as [|r rels IH]; intros keys lines.
  - exists []. simpl. rewrite app_nil_r. split_and!; [| done | constructor | constructor |].
    + f_equal. set_solver.
    + intros r Hr. by apply elem_of_nil in Hr.
  - change (foldl (Memgraph.step id node_label) (keys, lines) (r :: rels))
      with (foldl (Memgraph.step id node_label)
              (Memgraph.step id node_label (keys, lines) r) rels).
    rewrite memgraph_step_eq, fmap_cons. case_decide as Hk.
    + destruct (IH keys lines) as (new & -> & Hsub & Hnd & Hfresh & Hall).
      exists new. split_and!; try done.
      * by apply sublist_cons.
      * intros r' Hr. apply elem_of_cons in Hr as [-> | Hr]; [set_solver | by apply Hall].
    + destruct (IH (keys ∪ {[fact_key r]}) (lines ++ [field_of node_label r]))
        as (new & -> & Hsub & Hnd & Hfresh & Hall).
      exists (field_of node_label r :: new).
      rewrite fmap_cons, key_of_field_of. split_and!.
      * f_equal; [set_solver | by rewrite <- app_assoc].
      * by apply sublist_skip.
      * apply NoDup_cons. split; [| done]. intros Hin.
        apply list_elem_of_fmap in Hin as (g & Hg & Hgin).
        rewrite Forall_forall in Hfresh. specialize (Hfresh g Hgin). set_solver.
      * constructor; [by rewrite key_of_field_of |].
        eapply Forall_impl; [exact Hfresh |]. set_solver.
      * intros r' Hr. apply elem_of_cons in Hr as [-> | Hr]; [set_solver |].
        specialize (Hall r' Hr). set_solver.
Qed.



(** The relationship fields of memgraph-schema-graphql.py are the fields of
    the facts in input order, OUT and IN interleaved as given, without those
    whose key occurred before: the keys of the fields written are pairwise
    distinct and every fact has a field of its key. *)
Theorem memgraph_fields_deduplicated (node_label : string)
    (relationships : list (string * string * Direction)) :
  sublist (Memgraph.relationship_fields node_label relationships)
          (field_of node_label <$> relationships) ∧
  NoDup (key_of <$> Memgraph.relationship_fields node_label relationships) ∧
  NoDup (fact_of <$> Memgraph.relationship_fields node_label relationships) ∧
  (∀ r, r ∈ relationships →
     ∃ f, f ∈ Memgraph.relationship_fields node_label relationships ∧ key_of f = fact_key r).
Proof.
  unfold Memgraph.relationship_fields, Memgraph.relationship_pass.
  destruct (memgraph_pass_invariant node_label relationships ∅ [])
    as (new & -> & Hsub & Hnd & _ & Hall).
  simpl. split_and!; [done | done | |].
  - assert (key_of <$> new
            = (λ r : string * string * Direction, rel_key r.1.1 r.1.2 r.2) <$> (fact_of <$> new))
      as Heq by (by rewrite <- list_fmap_compose).
    rewrite Heq in Hnd. by apply NoDup_fmap_1 in Hnd.
  - intros r Hr. specialize (Hall r Hr).
    rewrite union_empty_l_L in Hall. apply elem_of_list_to_set in Hall.
    apply list_elem_of_fmap in Hall as (f & ? & ?). eauto.
Qed.

Lemma join_lines_blocks_text (lines blocks : list string) :
  lines ≠ [] → Py.join Py.nl (lines ++ blocks) = Py.join Py.nl lines +:+ blocks_text blocks.
Proof.
  revert lines. induction blocks as [|b blocks IH]; intros lines Hne.
  - simpl. by rewrite app_nil_r, append_nil_r.
  - change (lines ++ b :: blocks) with (lines ++ [b] ++ blocks).
    rewrite app_assoc, IH by (by destruct lines).
    rewrite join_app by done. simpl blocks_text. simpl Py.join at 2.
    by rewrite !append_assoc.
Qed.

Lemma node_lines_labelled schema_data nodes :
  flat_map (Memgraph.node_lines
              (Memgraph.build_relationship_map (Memgraph.schema_edges schema_data))) nodes
  = memgraph_block schema_data <$> filter (λ node, Memgraph.labels node ≠ []) nodes.
Proof.
  induction nodes as [|node nodes IH]; simpl; [done |].
  rewrite IH. unfold Memgraph.node_lines at 1, memgraph_block at 2.
  destruct (Memgraph.labels node) as [|l ls] eqn:Hl.
  - rewrite filter_cons_False by (by rewrite Hl; intros H). done.
  - rewrite filter_cons_True by (by rewrite Hl). simpl.
    unfold memgraph_block. by rewrite Hl.
Qed.

Lemma labelled_filter_idemp (nodes : list Memgraph.NodeRecord) :
  filter (λ node, Memgraph.labels node ≠ []) (filter (λ node, Memgraph.labels node ≠ []) nodes)
  = filter (λ node, Memgraph.labels node ≠ []) nodes.
Proof.
  induction nodes as [|node nodes IH]; [done |].
  destruct (decide (Memgraph.labels node ≠ [])) as [Hl | Hl].
  - rewrite (filter_cons_True _ node nodes) by done.
    rewrite filter_cons_True by done. by rewrite IH.
  - by rewrite (filter_cons_False _ node nodes) by done.
Qed.

(** The document of memgraph-schema-graphql.py is the marker comment, a
    blank line, and one type block per node that has a label, named by the
    node's first label, in the order of the node array; nodes without labels
    leave no trace, so the document is that of the schema without them. *)
Theorem process_schema_json_layout (schema_data : Memgraph.SchemaData) :
  Memgraph.process_schema_json schema_data
  = "#graphql" +:+ Py.nl
    +:+ blocks_text (memgraph_block schema_data <$> labelled_nodes schema_data) ∧
  Memgraph.process_schema_json schema_data
  = Memgraph.process_schema_json
      {| Memgraph.schema_nodes := labelled_nodes schema_data;
         Memgraph.schema_edges := Memgraph.schema_edges schema_data |} ∧
  (labelled_nodes schema_data = [] →
   Memgraph.process_schema_json schema_data = "#graphql" +:+ Py.nl).
Proof.
  assert (∀ data, Memgraph.process_schema_json data
                  = "#graphql" +:+ Py.nl
                    +:+ blocks_text (memgraph_block data <$> labelled_nodes data)) as Hlayout.
  { intros data. unfold Memgraph.process_schema_json.
    rewrite node_lines_labelled, join_lines_blocks_text by done.
    fold (labelled_nodes data). done. }
  split_and!; [apply Hlayout | | intros Hnone; by rewrite Hlayout, Hnone].
  rewrite !Hlayout. unfold labelled_nodes. simpl.
  by rewrite labelled_filter_idemp.
Qed.

(** ** The type block of data-model-schema-graphql.py *)

(** A type block is the opening line, one line per property in the order of
    the node's Props list, one line per relationship field, the closing line
    and a newline; an empty Props list is as good as none, and a node without
    properties and without an entry in the relationship map gets the empty
    block. *)
Theorem node_type_layout (node_name : string) (node_def : Plain.NodeDef)
    (relationship_map : gmap string (list (string * string * Direction)))
    (prop_definitions : gmap string Plain.PropDef) :
  Plain.generate_node_type node_name node_def relationship_map prop_definitions
  = Py.join Py.nl
      (["type " +:+ node_name +:+ " {"]
       ++ (Plain.property_line prop_definitions <$> default [] (Plain.Props node_def))
       ++ (relationship_line
             <$> Plain.relationship_fields node_name
                   (default [] (relationship_map !! node_name)))
       ++ ["}"])
    +:+ Py.nl ∧
  (default [] (Plain.Props node_def) = [] → relationship_map !! node_name = None →
   Plain.generate_node_type node_name node_def relationship_map prop_definitions
   = "type " +:+ node_name +:+ " {" +:+ Py.nl +:+ "}" +:+ Py.nl).
Proof.
  assert (Plain.generate_node_type node_name node_def relationship_map prop_definitions
          = Py.join Py.nl
              (["type " +:+ node_name +:+ " {"]
               ++ (Plain.property_line prop_definitions <$> default [] (Plain.Props node_def))
               ++ (relationship_line
                     <$> Plain.relationship_fields node_name
                           (default [] (relationship_map !! node_name)))
               ++ ["}"])
            +:+ Py.nl) as Hlayout.
  { unfold Plain.generate_node_type.
    rewrite join_snoc_empty by (by destruct (Plain.Props node_def)).
    rewrite relationship_passes_emit. f_equal. f_equal.
    destruct (Plain.Props node_def); simpl; by rewrite <- ?app_assoc. }
  split; [exact Hlayout |].
  intros Hprops Hnone. rewrite Hlayout, Hprops, Hnone. simpl.
  by rewrite !append_assoc.
Qed.

(** ** Blocks without collisions *)

Lemma NoDup_fmap_elem {A B} (f : A → B) (l : list A) x y :
  NoDup (f <$> l) → x ∈ l → y ∈ l → f x = f y → x = y.
Proof.
  intros Hnd Hx Hy Hf.
  apply list_elem_of_lookup in Hx as [i Hi]. apply list_elem_of_lookup in Hy as [j Hj].
  assert (i = j) as ->.
  { eapply NoDup_lookup; [exact Hnd | |]; rewrite list_lookup_fmap.
    - by rewrite Hi.
    - rewrite Hj. simpl. by rewrite Hf. }
  congruence.
Qed.

Lemma out_pass_without_collisions node_name rels :
  ∀ st : Plain.LoopState CompiledField,
    NoDup (fact_key <$> rels) →
    (∀ r, r ∈ rels → fact_key r ∉ Plain.added_relationships st) →
    foldl (Plain.out_step id node_name) st rels
    = {| Plain.added_relationships :=
           Plain.added_relationships st
           ∪ list_to_set (fact_key <$> filter (λ r, r.2 = OUT) rels);
         Plain.added_field_names :=
           Plain.added_field_names st
           ∪ list_to_set ((λ r, relationship_field_name node_name r.1.2)
                            <$> filter (λ r, r.2 = OUT) rels);
         Plain.appended :=
           Plain.appended st ++ (field_of node_name <$> filter (λ r, r.2 = OUT) rels) |}.
Proof.
  induction rels as [|r rels IH]; intros st Hnd Hfresh.
  - destruct st. simpl. rewrite app_nil_r. f_equal; set_solver.
  - rewrite fmap_cons in Hnd. apply NoDup_cons in Hnd as [Hr Hnd].
    change (foldl (Plain.out_step id node_name) st (r :: rels))
      with (foldl (Plain.out_step id node_name) (Plain.out_step id node_name st r) rels).
    destruct (decide (r.2 = OUT)) as [Hd | Hd].
    + rewrite filter_cons_True by done.
      assert (Plain.out_step id node_name st r
              = {| Plain.added_relationships := Plain.added_relationships st ∪ {[fact_key r]};
                   Plain.added_field_names :=
                     Plain.added_field_names st ∪ {[relationship_field_name node_name r.1.2]};
                   Plain.appended := Plain.appended st ++ [field_of node_name r] |}) as ->.
      { destruct r as [[rel_type target_node] direction]. simpl in Hd. subst direction.
        unfold Plain.out_step. rewrite decide_False by (by intros H).
        rewrite decide_False; [done |]. apply (Hfresh (rel_type, target_node, OUT)). left. }
      rewrite IH; [| done |].
      * simpl. rewrite <- app_assoc. f_equal; set_solver.
      * intros r' Hr'. simpl. apply not_elem_of_union. split.
        -- apply Hfresh. by right.
        -- rewrite elem_of_singleton. intros Heq. apply Hr. rewrite <- Heq.
           by apply list_elem_of_fmap_2.
    + rewrite filter_cons_False by done.
      assert (Plain.out_step id node_name st r = st) as ->.
      { destruct r as [[rel_type target_node] direction]. simpl in Hd.
        unfold Plain.out_step. by rewrite decide_True. }
      apply IH; [done |]. intros r' Hr'. apply Hfresh. by right.
Qed.

Lemma in_pass_without_collisions node_name rels :
  ∀ st : Plain.LoopState CompiledField,
    NoDup (fact_key <$> rels) →
    NoDup ((λ r, relationship_field_name node_name r.1.2) <$> rels) →
    (∀ r, r ∈ rels → r.2 = IN →
          (fact_key r ∉ Plain.added_relationships st) ∧
          (relationship_field_name node_name r.1.2 ∉ Plain.added_field_names st)) →
    Plain.appended (foldl (Plain.in_step id node_name) st rels)
    = Plain.appended st ++ (field_of node_name <$> filter (λ r, r.2 = IN) rels).
Proof.
  induction rels as [|r rels IH]; intros st Hnd Hnames Hfresh.
  - simpl. by rewrite app_nil_r.
  - rewrite fmap_cons in Hnd, Hnames.
    apply NoDup_cons in Hnd as [Hr Hnd]. apply NoDup_cons in Hnames as [Hrn Hnames].
    change (foldl (Plain.in_step id node_name) st (r :: rels))
      with (foldl (Plain.in_step id node_name) (Plain.in_step id node_name st r) rels).
    destruct (decide (r.2 = IN)) as [Hd | Hd].
    + rewrite filter_cons_True by done.
      destruct (Hfresh r) as [Hk Hn]; [left | done |].
      assert (Plain.in_step id node_name st r
              = {| Plain.added_relationships := Plain.added_relationships st ∪ {[fact_key r]};
                   Plain.added_field_names :=
                     Plain.added_field_names st ∪ {[relationship_field_name node_name r.1.2]};
                   Plain.appended := Plain.appended st ++ [field_of node_name r] |}) as ->.
      { destruct r as [[rel_type target_node] direction]. simpl in Hd. subst direction.
        unfold Plain.in_step. rewrite decide_False by (by intros H).
        rewrite decide_False by done. by rewrite decide_False. }
      rewrite IH; [| done | done |].
      * simpl. by rewrite <- app_assoc.
      * intros r' Hr' Hd'. simpl. destruct (Hfresh r') as [Hk' Hn']; [by right | done |].
        split; apply not_elem_of_union; (split; [done |]); rewrite elem_of_singleton;
          intros Heq.
        -- apply Hr. rewrite <- Heq. by apply list_elem_of_fmap_2.
        -- apply Hrn. rewrite <- Heq.
           by apply (list_elem_of_fmap_2 (λ r, relationship_field_name node_name r.1.2)).
    + rewrite filter_cons_False by done.
      assert (Plain.in_step id node_name st r = st) as ->.
      { destruct r as [[rel_type target_node] direction]. simpl in Hd.
        unfold Plain.in_step. by rewrite decide_True. }
      apply IH; [done | done |]. intros r' Hr'. apply Hfresh. by right.
Qed.

(** When the facts of a node have pairwise distinct keys and pairwise
    distinct field names, nothing is dropped: the block carries the field of
    every OUT fact, in document order, followed by the field of every IN
    fact, in document order. *)
Theorem fields_without_collisions (node_name : string)
    (node_relationships : list (string * string * Direction)) :
  NoDup (fact_key <$> node_relationships) →
  NoDup ((λ r, relationship_field_name node_name r.1.2) <$> node_relationships) →
  Plain.relationship_fields node_name node_relationships
  = (field_of node_name <$> filter (λ r, r.2 = OUT) node_relationships)
    ++ (field_of node_name <$> filter (λ r, r.2 = IN) node_relationships).
Proof.
  intros Hkeys Hnames.
  unfold Plain.relationship_fields, Plain.relationship_passes, Plain.out_pass.
  rewrite out_pass_without_collisions; [| done |].
  2:{ intros r _. simpl. apply not_elem_of_empty. }
  rewrite in_pass_without_collisions; [done | done | done |].
  intros r Hr Hd. simpl. rewrite !union_empty_l_L. split.
  - intros Hin. apply elem_of_list_to_set, list_elem_of_fmap in Hin as (r' & Heq & Hr').
    apply list_elem_of_filter in Hr' as [Hd' _].
    apply fact_key_direction in Heq. congruence.
  - intros Hin. apply elem_of_list_to_set, list_elem_of_fmap in Hin as (r' & Heq & Hr').
    apply list_elem_of_filter in Hr' as [Hd' Hr'].
    assert (r = r') as -> by (by eapply (NoDup_fmap_elem _ _ _ _ Hnames)).
    congruence.
Qed.

End Properties.

(** * Examples

    The statements above hold for every runtime table. The examples below
    are ASCII texts, evaluated with [ascii_runtime]. *)

#[global] Existing Instance ascii_runtime.




Lemma field_name_pluralization_rule_witness :
  relationship_field_name "diagnosis" "diagnosis_status" = "diagnosis_status" ∧
  relationship_field_name "diagnosis" "study" = "studies" ∧
  relationship_field_name "diagnosis" "sample" = "samples" ∧
  relationship_field_name "cell_line" "cell_line" = "cell_line".
Proof.
  split_and!.
  - destruct (field_name_pluralization_rule "diagnosis" "diagnosis_status") as (Hs & _).
    apply Hs. reflexivity.
  - destruct (field_name_pluralization_rule "diagnosis" "study") as (_ & Hy & _).
    apply (Hy "stud"); [reflexivity | discriminate].
  - destruct (field_name_pluralization_rule "diagnosis" "sample") as (_ & _ & Hother & _).
    apply Hother; [reflexivity | reflexivity | discriminate].
  - destruct (field_name_pluralization_rule "cell_line" "cell_line") as (_ & _ & _ & Hself & _).
    exact Hself.
Defined.

Lemma in_field_names_witness :
  (field_name (field_of "participant" ("of_participant", "sample", IN))
   = relationship_field_name "participant" "sample" ∧
   ∃ ends e,
     ("of_participant", Some {| Plain.Ends := Some ends |})
       ∈ single_fact "of_participant" "sample" "participant" ∧ e ∈ ends ∧
     Plain.Dst e = "participant" ∧ Plain.Src e = "sample") ∧
  (∃ edge, edge ∈ Mdf.edges (mdf_single_fact "of_participant" "sample" "participant") ∧
           Mdf.dst edge = "participant" ∧ Mdf.src edge = "sample" ∧
           counted_name (in_base (mdf_node "participant") edge) "participant_of_participant").
Proof.
  destruct in_field_names as (Hplain & _ & Hmdf). split.
  - apply (Hplain (single_fact "of_participant" "sample" "participant") "participant"
             (field_of "participant" ("of_participant", "sample", IN))).
    + vm_compute. constructor.
    + reflexivity.
  - apply (Hmdf (mdf_single_fact "of_participant" "sample" "participant")
             (mdf_node "participant") "participant_of_participant" "sample").
    vm_compute. constructor.
Defined.

(** C3, as stated, fails: for the fact of_participant from sample to
    participant, the only field of the participant type is an IN field named
    "samples", after the source type; it is neither "participants" nor
    "participant". *)
Lemma in_field_not_named_after_own_type :
  node_fields (single_fact "of_participant" "sample" "participant") "participant"
  = [ {| field_name := "samples"; field_target := "sample";
         field_label := "of_participant"; field_direction := IN |} ] ∧
  relationship_field_name "sample" "participant" = "participants" ∧
  "samples" ≠ "participants" ∧ "samples" ≠ "participant".
Proof. split_and!; [vm_compute; reflexivity | vm_compute; reflexivity | done | done]. Qed.

(** C2, as stated, fails: in neither generator does the sample type get an
    OUT field, and no field of the plain generator carries the label
    "OF_SAMPLE". *)
Lemma sample_type_gets_no_out_field :
  (¬ ∃ f, f ∈ node_fields (single_fact "of_sample" "diagnosis" "sample") "sample" ∧
          field_direction f = OUT) ∧
  (¬ ∃ r, r ∈ Mdf.build_relationship_fields
                (mdf_single_fact "of_sample" "diagnosis" "sample") (mdf_node "sample") ∧
          r.2 = OUT) ∧
  (¬ ∃ f, f ∈ node_fields (single_fact "of_sample" "diagnosis" "sample") "diagnosis" ∧
          field_label f = "OF_SAMPLE").
Proof.
  split_and!.
  - intros (f & Hf & Hd). vm_compute in Hf.
    apply list_elem_of_singleton in Hf. subst. discriminate.
  - intros (r & Hr & Hd). vm_compute in Hr.
    apply list_elem_of_singleton in Hr. subst. discriminate.
  - intros (f & Hf & Hl). vm_compute in Hf.
    apply list_elem_of_singleton in Hf. subst. discriminate.
Qed.

Lemma infer_scalar_from_name_witness :
  Plain.determine_graphql_type "sample_id" None = "String" ∧
  Plain.determine_graphql_type "Age_At_Diagnosis" None = "Int" ∧
  Plain.determine_graphql_type "diagnosis_basis" None = "Boolean" ∧
  Plain.determine_graphql_type "anatomic_site" None = "String".
Proof.
  assert (∀ n, Py.endswith n "_id" || String.eqb n "id" = false → ¬ id_like n) as Hnid.
  { intros n Hn Hid. apply id_like_spec in Hid. congruence. }
  assert (∀ n, Plain.any_pattern_in Plain.numeric_patterns (Py.lower n) = false →
               ¬ numeric_like n) as Hnnum.
  { intros n Hn Hnum. apply any_pattern_in_spec in Hnum. congruence. }
  assert (∀ n, Plain.any_pattern_in Plain.boolean_patterns (Py.lower n) = false →
               ¬ boolean_like n) as Hnbool.
  { intros n Hn Hb. apply any_pattern_in_spec in Hb. congruence. }
  split_and!.
  - destruct (infer_scalar_from_name "sample_id") as (Hid & _).
    apply Hid. left. reflexivity.
  - destruct (infer_scalar_from_name "Age_At_Diagnosis") as (_ & Hnum & _).
    apply Hnum; [apply Hnid; reflexivity |].
    exists "age_at_". split; [left | reflexivity].
  - destruct (infer_scalar_from_name "diagnosis_basis") as (_ & _ & Hbool & _).
    apply Hbool; [apply Hnid; reflexivity | apply Hnnum; reflexivity |].
    exists "is_". split; [do 2 right; left | reflexivity].
  - destruct (infer_scalar_from_name "anatomic_site") as (_ & _ & _ & Hother & _).
    apply Hother; [apply Hnid | apply Hnnum | apply Hnbool]; reflexivity.
Defined.

(** C6, as stated, fails: 'is_' is matched anywhere in the name, not only at
    its start, so "diagnosis_basis" is a Boolean where the three classes as
    stated give String. *)
Lemma is_fragment_matches_inside_name :
  Plain.determine_graphql_type "diagnosis_basis" None = "Boolean" ∧
  spec_infer_by_name "diagnosis_basis" = "String" ∧
  Plain.determine_graphql_type "diagnosis_basis" None ≠ spec_infer_by_name "diagnosis_basis".
Proof. split_and!; [vm_compute; reflexivity | vm_compute; reflexivity | vm_compute; discriminate]. Qed.

Lemma singularize_pluralize_roundtrip_witness :
  Mdf.singularize (relationship_field_name "diagnosis" "sample") = "sample" ∧
  Mdf.singularize (relationship_field_name "diagnosis" "study") = "study".
Proof.
  split.
  - apply (singularize_pluralize_roundtrip "diagnosis" "sample");
      [discriminate | reflexivity | split; reflexivity].
  - apply (singularize_pluralize_roundtrip "diagnosis" "study");
      [discriminate | reflexivity | split; reflexivity].
Defined.

(** C7, as stated, fails on ordinary nouns with regular plurals: "case" is
    pluralized to "cases" and singularized to "cas", "movie" comes back as
    "movy". *)
Lemma roundtrip_fails_on_case :
  relationship_field_name "diagnosis" "case" = "cases" ∧
  Mdf.singularize (relationship_field_name "diagnosis" "case") = "cas" ∧
  Mdf.singularize (relationship_field_name "diagnosis" "case") ≠ "case" ∧
  Mdf.singularize (relationship_field_name "diagnosis" "movie") = "movy".
Proof. split_and!; [vm_compute; reflexivity | vm_compute; reflexivity | vm_compute; discriminate | vm_compute; reflexivity]. Qed.

Lemma property_fields_sorted_witness :
  let a := ("age", {| Mdf.value_domain := Some "integer"; Mdf.item_domain := None |}) in
  let b := ("sample_id", {| Mdf.value_domain := Some "string"; Mdf.item_domain := None |}) in
  let model := {| Mdf.model_handle := "m"; Mdf.nodes := []; Mdf.edges := [] |} in
  let node := {| Mdf.handle := "sample"; Mdf.props := [b; a] |} in
  Mdf.generate_type_sdl model node
  = "type sample {" +:+ Py.nl
    +:+ "  age: Int" +:+ Py.nl
    +:+ "  sample_id: String" +:+ Py.nl
    +:+ "}" ∧
  Mdf.safe_name <$> (Py.sorted Mdf.item_le (Mdf.props node)).*1 = ["age"; "sample_id"] ∧
  Mdf.generate_type_sdl model (with_props node [a; b]) = Mdf.generate_type_sdl model node.
Proof.
  intros a b model node.
  destruct (property_fields_sorted model node) as (_ & _ & Htext & Hnames & Horder).
  split_and!.
  - rewrite Htext. vm_compute. reflexivity.
  - destruct Hnames as [Hsame _].
    + vm_compute. repeat constructor.
    + rewrite Hsame. vm_compute. reflexivity.
  - apply Horder.
    + simpl. apply NoDup_cons. split.
      * intros Hin. apply list_elem_of_singleton in Hin. discriminate.
      * apply NoDup_singleton.
    + simpl. apply Permutation_swap.
Defined.

(** The order is that of the attribute names, not of the written names:
    a-b comes before a_a, and they are written a_b and a_a. *)
Example written_names_follow_attribute_order :
  let p := {| Mdf.value_domain := Some "string"; Mdf.item_domain := None |} in
  Mdf.generate_type_sdl {| Mdf.model_handle := "m"; Mdf.nodes := []; Mdf.edges := [] |}
    {| Mdf.handle := "sample"; Mdf.props := [("a_a", p); ("a-b", p)] |}
  = "type sample {" +:+ Py.nl
    +:+ "  a_b: String" +:+ Py.nl
    +:+ "  a_a: String" +:+ Py.nl
    +:+ "}".
Proof. vm_compute. reflexivity. Qed.

(** C8, as stated, fails for data-model-schema-graphql.py: the type blocks
    follow the order of the model file, here sample before diagnosis, and
    the printed document ends with two newlines. *)
Lemma plain_document_order_and_ending :
  Plain.main_stdout plain_two_nodes {| Plain.PropDefinitions := ∅ |}
  = "#graphql" +:+ Py.nl +:+ Py.nl
    +:+ "# Type for field count results" +:+ Py.nl
    +:+ "type FieldCount {" +:+ Py.nl
    +:+ "  field: String!" +:+ Py.nl
    +:+ "  count: Int!" +:+ Py.nl
    +:+ "}" +:+ Py.nl +:+ Py.nl
    +:+ "type sample {" +:+ Py.nl +:+ "}" +:+ Py.nl +:+ Py.nl
    +:+ "type diagnosis {" +:+ Py.nl +:+ "}" +:+ Py.nl +:+ Py.nl ∧
  String.ltb "diagnosis" "sample" = true ∧
  Py.endswith (Plain.main_stdout plain_two_nodes {| Plain.PropDefinitions := ∅ |})
    (Py.nl +:+ Py.nl) = true.
Proof. split_and!; vm_compute; reflexivity. Qed.

Lemma relationship_map_entries_witness :
  Plain.build_relationship_map (single_fact "of_sample" "diagnosis" "sample") !! "sample"
  = Some [("of_sample", "diagnosis", IN)] ∧
  facts_for "study" (single_fact "of_sample" "diagnosis" "sample") = [].
Proof.
  destruct (relationship_map_entries (single_fact "of_sample" "diagnosis" "sample") "sample")
    as (_ & Hsome & _).
  destruct (relationship_map_entries (single_fact "of_sample" "diagnosis" "sample") "study")
    as (_ & _ & Hnone).
  split.
  - destruct (Hsome [("of_sample", "diagnosis", IN)]) as [_ Heq]; [vm_compute; reflexivity |].
    vm_compute. reflexivity.
  - apply Hnone. vm_compute. reflexivity.
Defined.

Lemma determine_graphql_type_scalar_witness :
  Plain.determine_graphql_type "sample_count" (Some {| Plain.Type_ := Some "Enum" |}) = "String".
Proof.
  destruct (determine_graphql_type_scalar "sample_count" None) as [_ Hunknown].
  apply Hunknown. vm_compute. intros Hin.
  repeat (apply elem_of_cons in Hin as [Hin | Hin]; [discriminate |]).
  by apply elem_of_nil in Hin.
Defined.

Lemma map_value_domain_classes_witness :
  (∃ elem, elem ∈ scalars ∧
     Mdf.map_value_domain_to_graphql
       {| Mdf.value_domain := Some "List"; Mdf.item_domain := Some "Integer" |}
     = "[" +:+ elem +:+ "]") ∧
  Mdf.map_value_domain_to_graphql {| Mdf.value_domain := Some "LIST"; Mdf.item_domain := None |}
  = "[String]" ∧
  Mdf.map_value_domain_to_graphql {| Mdf.value_domain := Some "url"; Mdf.item_domain := None |}
    ∈ scalars ∧
  Mdf.map_value_domain_to_graphql {| Mdf.value_domain := None; Mdf.item_domain := Some "int" |}
  = "String".
Proof.
  split_and!.
  - destruct (map_value_domain_classes
                {| Mdf.value_domain := Some "List"; Mdf.item_domain := Some "Integer" |})
      as (Hlist & _).
    apply Hlist. reflexivity.
  - destruct (map_value_domain_classes
                {| Mdf.value_domain := Some "LIST"; Mdf.item_domain := None |})
      as (_ & Hnone & _).
    apply Hnone; reflexivity.
  - destruct (map_value_domain_classes
                {| Mdf.value_domain := Some "url"; Mdf.item_domain := None |})
      as (_ & _ & Hother & _).
    apply Hother. discriminate.
  - destruct (map_value_domain_classes
                {| Mdf.value_domain := None; Mdf.item_domain := Some "int" |})
      as (_ & _ & _ & Habsent).
    apply Habsent. reflexivity.
Defined.

Lemma singularize_bounds_witness :
  Mdf.singularize "diagnosis" = "diagnosi" ∧ Mdf.singularize "cell_line" = "cell_line" ∧
  Mdf.singularize "address" = "address".
Proof.
  split_and!.
  - reflexivity.
  - destruct (singularize_bounds "cell_line") as (Hs & _). apply Hs. reflexivity.
  - destruct (singularize_bounds "address") as (_ & Hss & _). apply Hss. reflexivity.
Defined.

Lemma safe_name_valid_witness :
  Mdf.safe_name "sample_id2" = "sample_id2" ∧
  String.length (Mdf.safe_name "a-b c") = String.length "a-b c" ∧
  all_chars valid_char (Mdf.safe_name "a-b c") = true ∧
  Mdf.safe_name "a_b2" = "a_b2" ∧
  Mdf.safe_name (Mdf.safe_name "a-b c") = Mdf.safe_name "a-b c".
Proof.
  destruct (safe_name_valid "sample_id2") as [Hsame _].
  destruct (safe_name_valid "a-b c") as [_ Hascii].
  destruct (safe_name_valid "a_b2") as [_ Hascii'].
  destruct (Hascii eq_refl) as (Hlen & Hvalid & _ & Hidem).
  destruct (Hascii' eq_refl) as (_ & _ & Hkeep & _).
  split_and!; [| exact Hlen | exact Hvalid | apply Hkeep; reflexivity | exact Hidem].
  apply Hsame. vm_compute. repeat constructor.
Defined.

Lemma self_relationship_fields_witness :
  Mdf.build_relationship_fields (mdf_single_fact "derived_from" "sample" "sample")
    (mdf_node "sample")
  = [ ("sample_derived_from", "sample", OUT); ("sample_derived_from_2", "sample", IN) ].
Proof.
  apply (self_relationship_fields (mdf_single_fact "derived_from" "sample" "sample")
           (mdf_node "sample")
           {| Mdf.edge_handle := "derived_from"; Mdf.src := "sample"; Mdf.dst := "sample" |});
    reflexivity.
Defined.

Lemma label_recovered_without_underscore_witness :
  Mdf._relationship_type_name (mdf_single_fact "Includes" "study" "participant")
    ("participant" +:+ "_" +:+ Py.lower "Includes") "participant" OUT
  = Py.upper "Includes".
Proof.
  apply (label_recovered_without_underscore
           (mdf_single_fact "Includes" "study" "participant")
           {| Mdf.edge_handle := "Includes"; Mdf.src := "study"; Mdf.dst := "participant" |}).
  - left.
  - intros other Hother _. apply list_elem_of_singleton in Hother. by subst.
  - reflexivity.
Defined.

Lemma generate_schema_node_order_witness :
  Mdf.generate_schema
    (with_nodes (mdf_single_fact "of_sample" "diagnosis" "sample")
       [mdf_node "sample"; mdf_node "diagnosis"])
  = Mdf.generate_schema (mdf_single_fact "of_sample" "diagnosis" "sample").
Proof.
  apply generate_schema_node_order.
  - simpl. apply NoDup_cons. split.
    + intros Hin. apply list_elem_of_singleton in Hin. discriminate.
    + apply NoDup_singleton.
  - simpl. apply Permutation_swap.
Defined.

Lemma facts_accounted_for_witness :
  ∃ f, f ∈ Plain.relationship_fields "participant"
             [("of_study", "study", OUT); ("enrolled_in", "study", IN)] ∧
       (key_of f = fact_key ("enrolled_in", "study", IN) ∨
        (IN = IN ∧
         ∃ r', r' ∈ [("of_study", "study", OUT); ("enrolled_in", "study", IN)] ∧ r'.2 = IN ∧
               fact_key r' = fact_key ("enrolled_in", "study", IN) ∧
               field_name f = relationship_field_name "participant" r'.1.2)).
Proof.
  apply (facts_accounted_for "participant"
           [("of_study", "study", OUT); ("enrolled_in", "study", IN)]
           ("enrolled_in", "study", IN)).
  right. left.
Defined.

Lemma memgraph_map_entries_witness :
  ("HAS", "Sample", OUT)
    ∈ default [] (Memgraph.build_relationship_map
                    [ {| Memgraph.edge_type := "HAS";
                         Memgraph.start_node_labels := ["Study"; "Archived"];
                         Memgraph.end_node_labels := ["Sample"] |} ] !! "Study") ∧
  ("HAS", "Study", IN)
    ∈ default [] (Memgraph.build_relationship_map
                    [ {| Memgraph.edge_type := "HAS";
                         Memgraph.start_node_labels := ["Study"; "Archived"];
                         Memgraph.end_node_labels := ["Sample"] |} ] !! "Sample").
Proof.
  destruct (memgraph_map_entries
              [ {| Memgraph.edge_type := "HAS";
                   Memgraph.start_node_labels := ["Study"; "Archived"];
                   Memgraph.end_node_labels := ["Sample"] |} ]) as (Hfiled & _).
  apply (Hfiled {| Memgraph.edge_type := "HAS";
                   Memgraph.start_node_labels := ["Study"; "Archived"];
                   Memgraph.end_node_labels := ["Sample"] |}
           "Study" ["Archived"] "Sample" []); [left | reflexivity | reflexivity].
Defined.

Lemma memgraph_fields_deduplicated_witness :
  ∃ f, f ∈ Memgraph.relationship_fields "Study" [("HAS", "Sample", OUT); ("HAS", "Sample", OUT)] ∧
       key_of f = fact_key ("HAS", "Sample", OUT).
Proof.
  destruct (memgraph_fields_deduplicated "Study"
              [("HAS", "Sample", OUT); ("HAS", "Sample", OUT)]) as (_ & _ & _ & Hall).
  apply Hall. left.
Defined.

Lemma process_schema_json_layout_witness :
  Memgraph.process_schema_json
    {| Memgraph.schema_nodes := [ {| Memgraph.labels := []; Memgraph.properties := [] |} ];
       Memgraph.schema_edges := [] |}
  = "#graphql" +:+ Py.nl.
Proof.
  destruct (process_schema_json_layout
              {| Memgraph.schema_nodes := [ {| Memgraph.labels := []; Memgraph.properties := [] |} ];
                 Memgraph.schema_edges := [] |}) as (_ & _ & Hnone).
  apply Hnone. reflexivity.
Defined.

Lemma node_type_layout_witness :
  Plain.generate_node_type "study" {| Plain.Props := Some [] |}
    (Plain.build_relationship_map (single_fact "of_sample" "diagnosis" "sample")) ∅
  = "type " +:+ "study" +:+ " {" +:+ Py.nl +:+ "}" +:+ Py.nl.
Proof.
  destruct (node_type_layout "study" {| Plain.Props := Some [] |}
              (Plain.build_relationship_map (single_fact "of_sample" "diagnosis" "sample")) ∅)
    as [_ Hempty].
  apply Hempty; vm_compute; reflexivity.
Defined.

Lemma fields_without_collisions_witness :
  Plain.relationship_fields "sample"
    [("of_sample", "diagnosis", IN); ("of_participant", "participant", OUT)]
  = [ field_of "sample" ("of_participant", "participant", OUT);
      field_of "sample" ("of_sample", "diagnosis", IN) ].
Proof.
  apply (fields_without_collisions "sample"
           [("of_sample", "diagnosis", IN); ("of_participant", "participant", OUT)]).
  - vm_compute. apply NoDup_cons. split.
    + intros Hin. apply list_elem_of_singleton in Hin. discriminate.
    + apply NoDup_singleton.
  - vm_compute. apply NoDup_cons. split.
    + intros Hin. apply list_elem_of_singleton in Hin. discriminate.
    + apply NoDup_singleton.
Defined.
